(** * qotd-rs: the quote indexer, the corpus and the UDP reply loop

    A shallow embedding of [src/src/quotes.rs] (indexing of quote files,
    corpus construction, random selection, rot13) and of the UDP handler
    of [Server::serve] in [src/src/server.rs]. *)

From Stdlib Require Import List Arith NArith Lia Bool Btauto QArith.
From Stdlib Require Import Strings.Byte Strings.String.
Import ListNotations.

Local Open Scope nat_scope.
Local Open Scope list_scope.

(** ** Bytes, UTF-8 validity and string helpers *)

Definition bytes := list byte.

Definition bs (s : string) : bytes := list_byte_of_string s.

(** Newline, [%] and [/]. *)
Definition NL : byte := x0a.
Definition PCT : byte := x25.
Definition SLASH : byte := x2f.

Definition in_range (lo hi : nat) (b : byte) : bool :=
  (lo <=? Byte.to_nat b) && (Byte.to_nat b <=? hi).

Definition cont_byte (b : byte) : bool := in_range 128 191 b.

(** Allowed range of the second byte of a multi-byte sequence, following
    the well-formed table of Unicode (used by [str::from_utf8]). *)
Definition second_ok (b0 b1 : byte) : bool :=
  let n0 := Byte.to_nat b0 in
  if n0 =? 224 then in_range 160 191 b1
  else if n0 =? 237 then in_range 128 159 b1
  else if n0 =? 240 then in_range 144 191 b1
  else if n0 =? 244 then in_range 128 143 b1
  else cont_byte b1.

(** Width of the sequence started by a leading byte; 0 if invalid. *)
Definition utf8_width (b0 : byte) : nat :=
  if in_range 0 127 b0 then 1
  else if in_range 194 223 b0 then 2
  else if in_range 224 239 b0 then 3
  else if in_range 240 244 b0 then 4
  else 0.

(** [str::from_utf8(..).is_ok()]. *)
Fixpoint utf8_valid (l : bytes) : bool :=
  match l with
  | [] => true
  | b0 :: r0 =>
    match utf8_width b0, r0 with
    | 1, _ => utf8_valid r0
    | 2, b1 :: r1 => cont_byte b1 && utf8_valid r1
    | 3, b1 :: b2 :: r2 => second_ok b0 b1 && cont_byte b2 && utf8_valid r2
    | 4, b1 :: b2 :: b3 :: r3 =>
        second_ok b0 b1 && cont_byte b2 && cont_byte b3 && utf8_valid r3
    | _, _ => false
    end
  end.

(** [Path::to_str]: [Some] exactly when the path is valid UTF-8. *)
Definition to_str (p : bytes) : option bytes :=
  if utf8_valid p then Some p else None.

Fixpoint starts_with (s pat : bytes) : bool :=
  match pat, s with
  | [], _ => true
  | p :: pat', c :: s' => Byte.eqb p c && starts_with s' pat'
  | _ :: _, [] => false
  end.

(** [str::ends_with]. *)
Definition ends_with (s suf : bytes) : bool := starts_with (rev s) (rev suf).

(** [str::contains] with a string pattern. *)
Fixpoint contains (s pat : bytes) : bool :=
  starts_with s pat || match s with [] => false | _ :: s' => contains s' pat end.

(** ** Constants of quotes.rs *)

Definition SEPARATOR : bytes := [PCT].
Definition ROT31_TOKEN : bytes := bs "$SerrOFQ$".
Definition PLAIN_TOKEN : bytes := bs "$FreeBSD$".
Definition OFFENSIVE_SUFFIX : bytes := bs "-o".

(** ** Data model *)

Inductive QuoteCategory := Decorous | Offensive.
Inductive FileEncoding := Plain | Rot13.

Definition cat_eqb (a b : QuoteCategory) : bool :=
  match a, b with
  | Decorous, Decorous | Offensive, Offensive => true
  | _, _ => false
  end.

Record QuoteIndex := mkQuoteIndex { offset : nat; length : nat }.

(** The file handle is modelled by the file's contents, into which
    [read_quote] seeks. *)
Record QuoteFile := mkQuoteFile {
  file_handle : bytes;
  quotes : list QuoteIndex;
  encoding : FileEncoding;
  category : QuoteCategory }.

(** ** Results: [io::Result] plus a panic *)

(** [OsError] stands for the error the operating system reports when
    [File::open] or [read_dir] fails (not found, permission denied, ...),
    which [?] passes on; its kind is not modelled. *)
Inductive io_error := OsError | InvalidData | UnexpectedEof | NotADirectory.

Inductive outcome (A : Type) :=
| Ok (a : A)
| Err (e : io_error)
| Panic.
Arguments Ok {A} a.
Arguments Err {A} e.
Arguments Panic {A}.

(** The [?] operator, with panics propagating. *)
Definition bind {A B} (m : outcome A) (k : A -> outcome B) : outcome B :=
  match m with
  | Ok a => k a
  | Err e => Err e
  | Panic => Panic
  end.

Notation "x <-- m ;; k" := (bind m (fun x => k))
  (at level 61, m at next level, right associativity).

(** ** Quotes::rot13 *)

Definition add_byte (c : byte) (k : nat) : byte :=
  match Byte.of_nat (Byte.to_nat c + k) with Some c' => c' | None => c end.

Definition sub_byte (c : byte) (k : nat) : byte :=
  match Byte.of_nat (Byte.to_nat c - k) with Some c' => c' | None => c end.

(** [b'A'..=b'M' | b'a'..=b'm' => *c += 13],
    [b'N'..=b'Z' | b'n'..=b'z' => *c -= 13], otherwise unchanged. *)
Definition rot13_byte (c : byte) : byte :=
  if in_range 65 77 c || in_range 97 109 c then add_byte c 13
  else if in_range 78 90 c || in_range 110 122 c then sub_byte c 13
  else c.

Definition rot13 (text : bytes) : bytes := map rot13_byte text.

(** ** Quotes::process_file *)

(** Successive [read_line] calls: each line runs up to and including its
    newline; the last one may lack it. *)
Fixpoint split_lines_acc (cur : bytes) (s : bytes) : list bytes :=
  match s with
  | [] => match cur with [] => [] | _ => [rev cur] end
  | b :: s' =>
      if Byte.eqb b NL then rev (b :: cur) :: split_lines_acc [] s'
      else split_lines_acc (b :: cur) s'
  end.

Definition split_lines (s : bytes) : list bytes := split_lines_acc [] s.

(** The loop variables of [process_file]. *)
Record IndexState := mkIndexState {
  st_offset : nat;
  st_last_offset : nat;
  st_quotes : list QuoteIndex;
  st_encoding : FileEncoding;
  st_encoding_found : bool }.

Definition init_state : IndexState := mkIndexState 0 0 [] Plain false.

(** One iteration of the [while] loop body, for the line [line_buf]. *)
Definition index_line (st : IndexState) (line_buf : bytes) : IndexState :=
  let '(encoding, encoding_found) :=
    if negb (st_encoding_found st) then
      if contains line_buf ROT31_TOKEN then (Rot13, true)
      else if contains line_buf PLAIN_TOKEN then (Plain, true)
      else (st_encoding st, st_encoding_found st)
    else (st_encoding st, st_encoding_found st) in
  let line_len := List.length line_buf in
  let offset := st_offset st in
  let '(quotes, last_offset) :=
    if starts_with line_buf SEPARATOR then
      let len := offset - st_last_offset st in
      ((if 0 <? len then st_quotes st ++ [mkQuoteIndex (st_last_offset st) len]
        else st_quotes st),
       offset + line_len)
    else (st_quotes st, st_last_offset st) in
  mkIndexState (offset + line_len) last_offset quotes encoding encoding_found.

(** [while buf_read.read_line(&mut line_buf).await? > 0 { .. }]: a line
    that is not valid UTF-8 makes [read_line] fail with [InvalidData]. *)
Fixpoint read_loop (lines : list bytes) (st : IndexState) : outcome IndexState :=
  match lines with
  | [] => Ok st
  | l :: ls => if utf8_valid l then read_loop ls (index_line st l) else Err InvalidData
  end.

Definition path_category (path : bytes) : QuoteCategory :=
  let s := match to_str path with Some s => s | None => OFFENSIVE_SUFFIX end in
  if ends_with s OFFENSIVE_SUFFIX then Offensive else Decorous.

(** [fh = None] models a failing [File::open], whose error is passed on. *)
Definition process_file (path : bytes) (fh : option bytes) : outcome QuoteFile :=
  let category := path_category path in
  match fh with
  | None => Err OsError
  | Some contents =>
      st <-- read_loop (split_lines contents) init_state ;;
      Ok (mkQuoteFile contents (st_quotes st) (st_encoding st) category)
  end.

(** ** rand_distr's [WeightedAliasIndex] and rand's [gen_range]

    Library code (not part of this repository), modelled after its
    documentation: [WeightedAliasIndex::new] rejects an empty list
    ([NoItem]), more than [u32::MAX] weights ([TooMany]), a weight above
    [usize::MAX / n] ([InvalidWeight]) and weights summing to zero
    ([AllWeightsZero]); [sample] returns an index in [0 .. n) with
    probability proportional to its weight. *)

Definition USIZE_MAX : N := 18446744073709551615%N.
Definition U32_MAX : N := 4294967295%N.

Inductive WeightedError := NoItem | InvalidWeight | AllWeightsZero | TooMany.

Record WeightedAliasIndex := mkWeightedAliasIndex { aw_weights : list nat }.

Definition sum_list (l : list nat) : nat := fold_right Nat.add 0 l.

Definition alias_new (weights : list nat) : WeightedAliasIndex + WeightedError :=
  let n := List.length weights in
  if n =? 0 then inr NoItem
  else if (U32_MAX <? N.of_nat n)%N then inr TooMany
  else if negb (forallb (fun w => N.of_nat w <=? USIZE_MAX / N.of_nat n)%N weights)
  then inr InvalidWeight
  else if sum_list weights =? 0 then inr AllWeightsZero
  else inl (mkWeightedAliasIndex weights).

(** The number of indices [sample] ranges over. *)
Definition sample_range (w : WeightedAliasIndex) : nat := List.length (aw_weights w).

(** Probability that [sample] returns [i]. *)
Definition sample_prob (w : WeightedAliasIndex) (i : nat) : Q :=
  inject_Z (Z.of_nat (nth i (aw_weights w) 0)) / inject_Z (Z.of_nat (sum_list (aw_weights w))).

(** [rng.gen_range(0..n)], for the raw draw [r]; the empty range panics. *)
Definition gen_range (n r : nat) : outcome nat :=
  if n =? 0 then Panic else Ok (r mod n).

(** Probability that [gen_range(0..n)] returns [j]. *)
Definition gen_range_prob (n j : nat) : Q :=
  if j <? n then 1 / inject_Z (Z.of_nat n) else 0.

(** [Result::unwrap]. *)
Definition unwrap {A E} (r : A + E) : outcome A :=
  match r with inl a => Ok a | inr _ => Panic end.

(** ** Quotes::from_dir *)

Record Quotes := mkQuotes { files : list QuoteFile; file_weights : WeightedAliasIndex }.

(** A directory tree as [read_dir] sees it. [readable = false] makes
    [read_dir] fail; [contents = None] makes [File::open] fail; [EOther]
    is an entry that is neither a directory nor a regular file. *)
Inductive entry :=
| EDir (name : bytes) (readable : bool) (children : entries)
| EFile (name : bytes) (contents : option bytes)
| EOther (name : bytes)
with entries :=
| ENil
| ECons (e : entry) (rest : entries).

Scheme entry_mut := Induction for entry Sort Prop
with entries_mut := Induction for entries Sort Prop.

(** [entry.path()]. *)
Definition join (dir name : bytes) : bytes := dir ++ SLASH :: name.

(** The log statements of [from_dir] are not modelled. *)
Fixpoint from_dir (allowed : list QuoteCategory) (dir : bytes) (d : entry)
  : outcome Quotes :=
  match d with
  | EDir _ true children =>
      files <-- from_entries allowed dir children [] ;;
      file_weights <-- unwrap (alias_new (map (fun file => List.length (quotes file)) files)) ;;
      Ok (mkQuotes files file_weights)
  | EDir _ false _ => Err OsError
  | _ => Err NotADirectory
  end
(** The [while let Some(entry) = entries.next_entry().await?] loop. *)
with from_entries (allowed : list QuoteCategory) (dir : bytes) (es : entries)
  (files : list QuoteFile) : outcome (list QuoteFile) :=
  match es with
  | ENil => Ok files
  | ECons e rest =>
      match e with
      | EDir name _ _ =>
          sub <-- from_dir allowed (join dir name) e ;;
          from_entries allowed dir rest
            (files ++ match sub with mkQuotes sub_files _ => sub_files end)
      | EFile name contents =>
          file <-- process_file (join dir name) contents ;;
          if existsb (cat_eqb (category file)) allowed && negb (List.length (quotes file) =? 0)
          then from_entries allowed dir rest (files ++ [file])
          else from_entries allowed dir rest files
      | EOther _ => from_entries allowed dir rest files
      end
  end.

(** ** Quotes::read_quote and Quotes::random_quote *)

(** [seek(SeekFrom::Start(off))] followed by [read_exact] of [len] bytes. *)
Definition read_exact_at (h : bytes) (off len : nat) : outcome bytes :=
  let chunk := firstn len (skipn off h) in
  if List.length chunk =? len then Ok chunk else Err UnexpectedEof.

(** [r] is the raw draw of [thread_rng()] behind [gen_range]. *)
Definition read_quote (q : Quotes) (file_index r : nat) : outcome bytes :=
  match nth_error (files q) file_index with
  | None => Panic
  | Some file =>
      i <-- gen_range (List.length (quotes file)) r ;;
      match nth_error (quotes file) i with
      | None => Panic
      | Some quote_index =>
          quote <-- read_exact_at (file_handle file) (offset quote_index) (length quote_index) ;;
          Ok (match encoding file with Rot13 => rot13 quote | Plain => quote end)
      end
  end.

(** [i] is the index returned by [self.file_weights.sample(..)]. *)
Definition random_quote (q : Quotes) (i r : nat) : outcome bytes := read_quote q i r.

(** Default of [nth] on the file list. *)
Definition no_file : QuoteFile := mkQuoteFile [] [] Plain Decorous.

(** Probability that [random_quote] reads span [j] of file [i]:
    the sampler picks [i], then [gen_range] picks [j]. *)
Definition quote_prob (q : Quotes) (i j : nat) : Q :=
  sample_prob (file_weights q) i *
  gen_range_prob (List.length (quotes (nth i (files q) no_file))) j.

(** ** The UDP handler of Server::serve *)

(** Replies of [Self::get_quote]: [None] when the request channel or the
    reply channel is closed (the [?] ends the task). *)
Inductive udp_result :=
| Sent (quote : bytes)
| Aborted
| Waiting.

(** [Waiting]: the replies so far are used up and the loop is requesting
    yet another quote. *)
Fixpoint udp_handler (replies : list (option bytes)) : udp_result :=
  match replies with
  | [] => Waiting
  | None :: _ => Aborted
  | Some quote :: rest =>
      if List.length quote <? 512 then Sent quote else udp_handler rest
  end.

(** ** Predicates used in the statements *)

(** A byte is an ASCII upper-case or lower-case letter. *)
Definition is_upper (c : byte) : bool := in_range 65 90 c.
Definition is_lower (c : byte) : bool := in_range 97 122 c.

Definition span_end (q : QuoteIndex) : nat := offset q + length q.

(** Start and length of every line of [lines] whose first character is
    [%], where the first line starts at [off]. *)
Fixpoint delim_ranges (off : nat) (lines : list bytes) : list (nat * nat) :=
  match lines with
  | [] => []
  | l :: ls =>
      (if starts_with l SEPARATOR then [(off, List.length l)] else [])
        ++ delim_ranges (off + List.length l) ls
  end.

Definition has_marker (l : bytes) : bool :=
  contains l ROT31_TOKEN || contains l PLAIN_TOKEN.

(** The filter of [from_dir]. *)
Definition eligible (allowed : list QuoteCategory) (file : QuoteFile) : bool :=
  existsb (cat_eqb (category file)) allowed && negb (List.length (quotes file) =? 0).

(** Directory trees read without any I/O error in which no file passes the
    filter. *)
Fixpoint no_eligible_dir (allowed : list QuoteCategory) (dir : bytes) (d : entry) : bool :=
  match d with
  | EDir _ readable children => readable && no_eligible_entries allowed dir children
  | _ => false
  end
with no_eligible_entries (allowed : list QuoteCategory) (dir : bytes) (es : entries) : bool :=
  match es with
  | ENil => true
  | ECons e rest =>
      match e with
      | EDir name _ _ => no_eligible_dir allowed (join dir name) e
      | EFile name contents =>
          match process_file (join dir name) contents with
          | Ok file => negb (eligible allowed file)
          | _ => false
          end
      | EOther _ => true
      end && no_eligible_entries allowed dir rest
  end.

(** ** Definitions for the further properties *)

(** The state reached by the indexing loop over the whole file. *)
Definition index_result (contents : bytes) : IndexState :=
  fold_left index_line (split_lines contents) init_state.

(** Directory trees that [from_dir] reads without an I/O error: every
    directory can be read, every file opened, and every file is UTF-8. *)
Fixpoint io_clean_dir (d : entry) : bool :=
  match d with
  | EDir _ readable children => readable && io_clean_entries children
  | _ => false
  end
with io_clean_entries (es : entries) : bool :=
  match es with
  | ENil => true
  | ECons e rest =>
      match e with
      | EDir _ _ _ => io_clean_dir e
      | EFile _ (Some contents) => utf8_valid contents
      | EFile _ None => false
      | EOther _ => true
      end && io_clean_entries rest
  end.

(** Where a corpus file comes from: a successful [process_file] that the
    filter of [from_dir] let through. *)
Definition file_origin (allowed : list QuoteCategory) (f : QuoteFile) : Prop :=
  (exists path contents, process_file path (Some contents) = Ok f) /\ eligible allowed f = true.

(** The bytes [read_quote] returns for span [qi] of [f]. *)
Definition decoded_span (f : QuoteFile) (qi : QuoteIndex) : bytes :=
  let raw := firstn (length qi) (skipn (offset qi) (file_handle f)) in
  match encoding f with Rot13 => rot13 raw | Plain => raw end.

(** The spans that the delimiter lines [D] (start and length of each, in
    file order) cut out of a file when the first span may start at [prev]:
    the non-empty stretch before each delimiter line, back to the end of
    the previous one. A description of the indexer's output, compared with
    [process_file] below. *)
Fixpoint gaps (prev : nat) (D : list (nat * nat)) : list QuoteIndex :=
  match D with
  | [] => []
  | (s, l) :: D' =>
      (if 0 <? s - prev then [mkQuoteIndex prev (s - prev)] else []) ++ gaps (s + l) D'
  end.

(** Every subdirectory of a tree, at any depth, with the path under which
    [from_dir] reads it ([entry.path()]). *)
Fixpoint subdirs (dir : bytes) (d : entry) : list (bytes * entry) :=
  match d with
  | EDir _ _ children => subdirs_entries dir children
  | _ => []
  end
with subdirs_entries (dir : bytes) (es : entries) : list (bytes * entry) :=
  match es with
  | ENil => []
  | ECons e rest =>
      match e with
      | EDir name _ _ => (join dir name, e) :: subdirs (join dir name) e
      | _ => []
      end ++ subdirs_entries dir rest
  end.

(** ** src/src/args.rs and AllowedCategories of src/src/server.rs *)

Module AllowedCategories.
Inductive t := Decorous | Offensive | All.
End AllowedCategories.

(** [AllowedCategories::as_category_vec]. *)
Definition as_category_vec (self : AllowedCategories.t) : list QuoteCategory :=
  match self with
  | AllowedCategories.Decorous => [Decorous]
  | AllowedCategories.Offensive => [Offensive]
  | AllowedCategories.All => [Decorous; Offensive]
  end.

(** [tracing::level_filters::LevelFilter]; [Level::X.into()] is the filter
    [LevelFilter::X]. *)
Inductive LevelFilter := OFF | ERROR | WARN | INFO | DEBUG | TRACE.

(** tracing orders filters by verbosity:
    [OFF < ERROR < WARN < INFO < DEBUG < TRACE]. *)
Definition level_rank (l : LevelFilter) : nat :=
  match l with OFF => 0 | ERROR => 1 | WARN => 2 | INFO => 3 | DEBUG => 4 | TRACE => 5 end.

(** The parsed command line. [port] is a [u16] and [verbosity] a [u8]
    counted by clap. *)
Module Cli.
Record t := mk {
  all : bool;
  categories : option AllowedCategories.t;
  dir : bytes;
  host : string;
  log_file : option bytes;
  offensive : bool;
  port : N;
  quiet : bool;
  verbosity : nat }.
End Cli.

(** [Cli::allowed_categories]. *)
Definition allowed_categories (self : Cli.t) : list QuoteCategory :=
  match Cli.categories self with
  | Some categories => as_category_vec categories
  | None =>
      if Cli.all self then as_category_vec AllowedCategories.All
      else if Cli.offensive self then as_category_vec AllowedCategories.Offensive
      else as_category_vec AllowedCategories.Decorous
  end.

(** [Cli::verbosity]. *)
Definition verbosity (self : Cli.t) : LevelFilter :=
  match Cli.verbosity self with
  | 0 => if Cli.quiet self then ERROR else WARN
  | 1 => INFO
  | 2 => DEBUG
  | _ => TRACE
  end.

(** Lines 29-30 of [main] (src/src/main.rs): the corpus the binary serves,
    [tree] being the directory [args.dir]. *)
Definition main_corpus (args : Cli.t) (tree : entry) : outcome Quotes :=
  from_dir (allowed_categories args) (Cli.dir args) tree.

(** Line 21 of [serve_dir] (src/src/lib.rs). *)
Definition serve_dir_corpus (dir : bytes) (tree : entry) : outcome Quotes :=
  from_dir [Decorous] dir tree.

(** ** The quote task spawned by Server::serve *)

(** How the task's loop ends: [TaskFailed] and [TaskPanicked] from
    [random_quote] ([.context("Failed to choose quote")?]), [ChannelClosed]
    when [recv] returns [None]; [StillRunning] when the steps are used up. *)
Inductive task_end :=
| TaskFailed (e : io_error)
| TaskPanicked
| ChannelClosed
| StillRunning.

(** Each step is the index [i] drawn by [file_weights.sample], the raw draw
    [r] of [read_quote], and whether [recv] yields a requester ([true]) or
    finds the channel closed ([false]). The quote is chosen before waiting.
    Returns the quotes handed to requesters and how the loop ended. *)
Fixpoint quote_task (q : Quotes) (steps : list (nat * nat * bool)) : list bytes * task_end :=
  match steps with
  | [] => ([], StillRunning)
  | (i, r, open) :: rest =>
      match random_quote q i r with
      | Err e => ([], TaskFailed e)
      | Panic => ([], TaskPanicked)
      | Ok quote =>
          if open then let '(sent, e) := quote_task q rest in (quote :: sent, e)
          else ([], ChannelClosed)
      end
  end.

(** ** Helper lemmas *)

Lemma rot13_byte_involutive (c : byte) : rot13_byte (rot13_byte c) = c.
Proof. destruct c; reflexivity. Qed.

Lemma rot13_byte_action (c : byte) :
  (is_upper c = true ->
     is_upper (rot13_byte c) = true /\
     Byte.to_nat (rot13_byte c) = 65 + (Byte.to_nat c - 65 + 13) mod 26) /\
  (is_lower c = true ->
     is_lower (rot13_byte c) = true /\
     Byte.to_nat (rot13_byte c) = 97 + (Byte.to_nat c - 97 + 13) mod 26) /\
  (is_upper c = false -> is_lower c = false -> rot13_byte c = c).
Proof.
  destruct c; vm_compute; repeat split; intros; (reflexivity || discriminate).
Qed.

Lemma split_lines_acc_concat (s cur : bytes) :
  List.concat (split_lines_acc cur s) = rev cur ++ s.
Proof.
  revert cur; induction s as [|b s IH]; intros cur; simpl.
  - destruct cur; simpl; [reflexivity | rewrite !app_nil_r; reflexivity].
  - destruct (Byte.eqb b NL); simpl.
    + rewrite IH; simpl; rewrite <- app_assoc; reflexivity.
    + rewrite IH; simpl; rewrite <- app_assoc; reflexivity.
Qed.

Lemma split_lines_concat (s : bytes) : List.concat (split_lines s) = s.
Proof. apply split_lines_acc_concat. Qed.

Lemma FOP_snoc {A} (R : A -> A -> Prop) (l : list A) (x : A) :
  ForallOrdPairs R l -> (forall a, In a l -> R a x) -> ForallOrdPairs R (l ++ [x]).
Proof.
  induction l as [|a l IH]; intros Hl Hx; simpl.
  - constructor; [constructor | constructor].
  - inversion Hl as [|? ? Ha Hl']; subst.
    constructor.
    + apply Forall_app; split; [exact Ha | constructor; [apply Hx; left; reflexivity | constructor]].
    + apply IH; [exact Hl' | intros b Hb; apply Hx; right; exact Hb].
Qed.

Lemma FOP_nth {A} (R : A -> A -> Prop) (l : list A) :
  ForallOrdPairs R l ->
  forall i j a b, i < j -> nth_error l i = Some a -> nth_error l j = Some b -> R a b.
Proof.
  induction 1 as [|x l Hx Hl IH]; intros i j a b Hij Ha Hb.
  - destruct i; discriminate.
  - destruct j as [|j]; [lia|].
    destruct i as [|i]; simpl in Ha, Hb.
    + injection Ha as <-. rewrite Forall_forall in Hx. apply Hx.
      eapply nth_error_In; exact Hb.
    + apply (IH i j); [lia | exact Ha | exact Hb].
Qed.

(** Invariant of the indexing loop after the lines whose delimiter lines
    are [D]. *)
Record index_inv (st : IndexState) (D : list (nat * nat)) : Prop := {
  inv_pos : forall q, In q (st_quotes st) -> 0 < length q;
  inv_sorted : ForallOrdPairs (fun a b => span_end a <= offset b) (st_quotes st);
  inv_q_last : forall q, In q (st_quotes st) -> span_end q <= st_last_offset st;
  inv_d_last : forall d, In d D -> fst d + snd d <= st_last_offset st;
  inv_last : st_last_offset st <= st_offset st;
  inv_disj : forall q d, In q (st_quotes st) -> In d D ->
               span_end q <= fst d \/ fst d + snd d <= offset q;
  inv_end : forall q, In q (st_quotes st) -> exists d, In d D /\ fst d = span_end q }.

Lemma index_inv_init : index_inv init_state [].
Proof.
  constructor; simpl; intros; try contradiction; try lia. constructor.
Qed.

Lemma index_line_fields (st : IndexState) (l : bytes) :
  st_offset (index_line st l) = st_offset st + List.length l /\
  st_quotes (index_line st l) =
    (if starts_with l SEPARATOR then
       if 0 <? st_offset st - st_last_offset st
       then st_quotes st ++ [mkQuoteIndex (st_last_offset st) (st_offset st - st_last_offset st)]
       else st_quotes st
     else st_quotes st) /\
  st_last_offset (index_line st l) =
    (if starts_with l SEPARATOR then st_offset st + List.length l else st_last_offset st).
Proof.
  unfold index_line.
  destruct (negb (st_encoding_found st)), (contains l ROT31_TOKEN), (contains l PLAIN_TOKEN);
    destruct (starts_with l SEPARATOR); simpl; auto.
Qed.

Lemma index_line_inv (st : IndexState) (D : list (nat * nat)) (l : bytes) :
  index_inv st D ->
  index_inv (index_line st l) (D ++ delim_ranges (st_offset st) [l]).
Proof.
  intros H. destruct (index_line_fields st l) as (Ho & Hq & Hl).
  destruct H as [Hpos Hsort Hql Hdl Hlast Hdisj Hend].
  simpl. destruct (starts_with l SEPARATOR) eqn:Hsep; simpl.
  2:{ rewrite !app_nil_r. constructor; rewrite ?Ho, ?Hq, ?Hl; try assumption; lia. }
  set (o := st_offset st) in *. set (la := st_last_offset st) in *.
  set (L := List.length l) in *.
  assert (HD : forall d, In d (D ++ [(o, L)]) -> In d D \/ d = (o, L)).
  { intros d Hd. apply in_app_or in Hd. destruct Hd as [Hd|[Hd|[]]]; auto. }
  destruct (0 <? o - la) eqn:Hlen.
  - apply Nat.ltb_lt in Hlen.
    assert (HQ : forall q, In q (st_quotes st ++ [mkQuoteIndex la (o - la)]) ->
                   In q (st_quotes st) \/ q = mkQuoteIndex la (o - la)).
    { intros q Hq'. apply in_app_or in Hq'. destruct Hq' as [Hq'|[Hq'|[]]]; auto. }
    constructor; rewrite ?Ho, ?Hq, ?Hl.
    + intros q Hq'. destruct (HQ q Hq') as [Hi | -> ]; [auto | simpl; lia].
    + apply FOP_snoc; [exact Hsort|]. intros a Ha. simpl. apply Hql. exact Ha.
    + intros q Hq'. destruct (HQ q Hq') as [Hi | -> ].
      * specialize (Hql q Hi). lia.
      * unfold span_end; simpl; lia.
    + intros d Hd. destruct (HD d Hd) as [Hi | -> ].
      * specialize (Hdl d Hi). lia.
      * simpl. lia.
    + lia.
    + intros q d Hq' Hd. destruct (HQ q Hq') as [Hi | -> ]; destruct (HD d Hd) as [Hj | -> ].
      * apply Hdisj; assumption.
      * left. specialize (Hql q Hi). simpl. lia.
      * right. specialize (Hdl d Hj). simpl. lia.
      * left. unfold span_end; simpl. lia.
    + intros q Hq'. destruct (HQ q Hq') as [Hi | -> ].
      * destruct (Hend q Hi) as (d & Hd & Hde). exists d.
        split; [apply in_or_app; left; exact Hd | exact Hde].
      * exists (o, L). split; [apply in_or_app; right; left; reflexivity|].
        unfold span_end; simpl. lia.
  - constructor; rewrite ?Ho, ?Hq, ?Hl.
    + exact Hpos.
    + exact Hsort.
    + intros q Hq'. specialize (Hql q Hq'). lia.
    + intros d Hd. destruct (HD d Hd) as [Hi | -> ].
      * specialize (Hdl d Hi). lia.
      * simpl. lia.
    + lia.
    + intros q d Hq' Hd. destruct (HD d Hd) as [Hj | -> ].
      * apply Hdisj; assumption.
      * left. specialize (Hql q Hq'). simpl. lia.
    + intros q Hq'. destruct (Hend q Hq') as (d & Hd & Hde). exists d.
      split; [apply in_or_app; left; exact Hd | exact Hde].
Qed.

Lemma read_loop_inv (ls : list bytes) :
  forall st D st', index_inv st D -> read_loop ls st = Ok st' ->
  index_inv st' (D ++ delim_ranges (st_offset st) ls).
Proof.
  induction ls as [|l ls IH]; intros st D st' Hinv Hrun; simpl in Hrun.
  - injection Hrun as <-. simpl. rewrite app_nil_r. exact Hinv.
  - destruct (utf8_valid l); [|discriminate].
    pose proof (IH _ _ _ (index_line_inv st D l Hinv) Hrun) as H.
    destruct (index_line_fields st l) as (Ho & _).
    rewrite Ho in H. simpl in H |- *. rewrite app_nil_r in H.
    rewrite <- app_assoc in H. exact H.
Qed.

Lemma process_file_ok (path : bytes) (fh : option bytes) (qf : QuoteFile) :
  process_file path fh = Ok qf ->
  exists contents st, fh = Some contents /\
    read_loop (split_lines contents) init_state = Ok st /\
    qf = mkQuoteFile contents (st_quotes st) (st_encoding st) (path_category path).
Proof.
  unfold process_file. destruct fh as [contents|]; [|discriminate].
  destruct (read_loop (split_lines contents) init_state) as [st| |] eqn:E; simpl;
    try discriminate.
  intros H. injection H as <-. exists contents, st. auto.
Qed.

(** *** Encoding detection *)

Lemma index_line_enc_found (st : IndexState) (l : bytes) :
  st_encoding_found st = true ->
  st_encoding (index_line st l) = st_encoding st /\ st_encoding_found (index_line st l) = true.
Proof.
  intros H. unfold index_line. rewrite H. simpl.
  destruct (starts_with l SEPARATOR); simpl; auto.
Qed.

Lemma index_line_enc_new (st : IndexState) (l : bytes) :
  st_encoding_found st = false ->
  st_encoding_found (index_line st l) = has_marker l /\
  st_encoding (index_line st l) =
    (if contains l ROT31_TOKEN then Rot13
     else if contains l PLAIN_TOKEN then Plain else st_encoding st).
Proof.
  intros H. unfold index_line, has_marker. rewrite H. simpl.
  destruct (contains l ROT31_TOKEN), (contains l PLAIN_TOKEN);
    destruct (starts_with l SEPARATOR); simpl; auto.
Qed.

Lemma read_loop_enc_found (ls : list bytes) :
  forall st st', st_encoding_found st = true -> read_loop ls st = Ok st' ->
  st_encoding st' = st_encoding st.
Proof.
  induction ls as [|l ls IH]; intros st st' Hf Hrun; simpl in Hrun.
  - injection Hrun as <-. reflexivity.
  - destruct (utf8_valid l); [|discriminate].
    destruct (index_line_enc_found st l Hf) as [He Hf'].
    rewrite (IH _ _ Hf' Hrun). exact He.
Qed.

Lemma read_loop_skip (pre : list bytes) :
  forall rest st st', st_encoding_found st = false ->
  Forall (fun x => has_marker x = false) pre ->
  read_loop (pre ++ rest) st = Ok st' ->
  exists st1, read_loop rest st1 = Ok st' /\
    st_encoding st1 = st_encoding st /\ st_encoding_found st1 = false.
Proof.
  induction pre as [|l pre IH]; intros rest st st' Hf Hpre Hrun.
  - exists st. auto.
  - inversion Hpre as [|? ? Hl Hpre']; subst.
    simpl in Hrun. destruct (utf8_valid l); [|discriminate].
    destruct (index_line_enc_new st l Hf) as [Hf' He].
    assert (Hm : contains l ROT31_TOKEN = false /\ contains l PLAIN_TOKEN = false).
    { unfold has_marker in Hl. apply orb_false_iff in Hl. exact Hl. }
    destruct Hm as [Hr Hp]. rewrite Hr, Hp in He. rewrite Hl in Hf'.
    destruct (IH rest _ _ Hf' Hpre' Hrun) as (st1 & H1 & H2 & H3).
    exists st1. split; [exact H1|]. split; [congruence | exact H3].
Qed.

(** *** Corpus construction *)

Lemma from_dir_ok_shape (allowed : list QuoteCategory) (dir : bytes) (d : entry) (q : Quotes) :
  from_dir allowed dir d = Ok q ->
  exists name children,
    d = EDir name true children /\
    from_entries allowed dir children [] = Ok (files q) /\
    files q <> [] /\
    aw_weights (file_weights q) = map (fun file => List.length (quotes file)) (files q) /\
    forallb (fun w => N.of_nat w <=? USIZE_MAX / N.of_nat (List.length (files q)))%N
      (aw_weights (file_weights q)) = true.
Proof.
  destruct d as [name readable children| |]; simpl; try discriminate.
  destruct readable; [|discriminate].
  destruct (from_entries allowed dir children []) as [fs| |] eqn:Ef; simpl; try discriminate.
  unfold alias_new.
  destruct (List.length (map (fun file => List.length (quotes file)) fs) =? 0) eqn:E0;
    simpl; try discriminate.
  destruct (U32_MAX <? N.of_nat (List.length (map (fun file => List.length (quotes file)) fs)))%N;
    simpl; try discriminate.
  destruct (forallb _ _) eqn:Ew; simpl; try discriminate.
  destruct (sum_list _ =? 0); simpl; try discriminate.
  intros H. injection H as <-. simpl.
  exists name, children. rewrite length_map in E0, Ew.
  repeat split; auto.
  intros Hn. subst fs. discriminate.
Qed.

Lemma from_entries_dir (allowed : list QuoteCategory) (dir name : bytes) (readable : bool)
  (children rest : entries) (acc : list QuoteFile) :
  from_entries allowed dir (ECons (EDir name readable children) rest) acc =
  (sub <-- from_dir allowed (join dir name) (EDir name readable children) ;;
   from_entries allowed dir rest
     (acc ++ match sub with mkQuotes sub_files _ => sub_files end)).
Proof. reflexivity. Qed.

Section Corpus.
Variable allowed : list QuoteCategory.

Lemma from_dir_quotes_nonempty :
  forall d dir q, from_dir allowed dir d = Ok q ->
  forall f, In f (files q) -> quotes f <> [].
Proof.
  apply (entry_mut
    (fun d => forall dir q, from_dir allowed dir d = Ok q ->
       forall f, In f (files q) -> quotes f <> [])
    (fun es => forall dir acc fs, from_entries allowed dir es acc = Ok fs ->
       (forall f, In f acc -> quotes f <> []) -> forall f, In f fs -> quotes f <> [])).
  - intros name readable children IH dir q Hq f Hf.
    destruct (from_dir_ok_shape _ _ _ _ Hq) as (n' & ch & Hd & He & _).
    injection Hd as Hn Hr Hc. subst.
    apply (IH dir [] (files q) He); [intros ? []| exact Hf].
  - intros name contents dir q Hq. discriminate.
  - intros name dir q Hq. discriminate.
  - intros dir acc fs H Hacc. simpl in H. injection H as <-. exact Hacc.
  - intros e IHe rest IHr dir acc fs H Hacc.
    destruct e as [name readable children|name contents|name].
    + rewrite from_entries_dir in H.
      destruct (from_dir allowed (join dir name) (EDir name readable children)) as [sub| |] eqn:Es;
        simpl in H; try discriminate.
      apply (IHr dir _ fs H). intros f Hf. apply in_app_or in Hf. destruct Hf as [Hf|Hf].
      * apply Hacc; exact Hf.
      * destruct sub as [sfs sw]. apply (IHe (join dir name) _ Es f Hf).
    + simpl in H.
      destruct (process_file (join dir name) contents) as [file| |]; simpl in H; try discriminate.
      destruct (existsb (cat_eqb (category file)) allowed &&
                negb (List.length (quotes file) =? 0)) eqn:Eel.
      * apply (IHr dir _ fs H). intros f Hf. apply in_app_or in Hf. destruct Hf as [Hf|[<-|[]]].
        -- apply Hacc; exact Hf.
        -- apply andb_true_iff in Eel. destruct Eel as [_ Hn].
           intros Hnil. rewrite Hnil in Hn. discriminate.
      * apply (IHr dir _ fs H Hacc).
    + simpl in H. apply (IHr dir _ fs H Hacc).
Qed.

Lemma no_eligible_panics :
  forall d dir, no_eligible_dir allowed dir d = true -> from_dir allowed dir d = Panic.
Proof.
  apply (entry_mut
    (fun d => forall dir, no_eligible_dir allowed dir d = true -> from_dir allowed dir d = Panic)
    (fun es => forall dir acc, no_eligible_entries allowed dir es = true ->
       from_entries allowed dir es acc = Ok acc \/ from_entries allowed dir es acc = Panic)).
  - intros name readable children IH dir H. simpl in H.
    destruct readable; [|discriminate]. simpl in H |- *.
    destruct (IH dir [] H) as [-> | ->]; reflexivity.
  - intros name contents dir H. discriminate.
  - intros name dir H. discriminate.
  - intros dir acc _. left. reflexivity.
  - intros e IHe rest IHr dir acc H. simpl in H. apply andb_true_iff in H. destruct H as [He Hr].
    destruct e as [name readable children|name contents|name].
    + rewrite from_entries_dir. rewrite (IHe (join dir name) He). right. reflexivity.
    + simpl. destruct (process_file (join dir name) contents) as [file| |]; try discriminate.
      simpl. unfold eligible in He. apply negb_true_iff in He. rewrite He.
      apply IHr; exact Hr.
    + simpl. apply IHr; exact Hr.
Qed.

End Corpus.

Lemma sum_list_nth (l : list nat) (i : nat) : nth i l 0 <= sum_list l.
Proof.
  revert i; induction l as [|x l IH]; intros [|i]; simpl; try lia.
  specialize (IH i). lia.
Qed.

Lemma ends_with_join (dir name : bytes) :
  name <> [] ->
  ends_with (join dir name) OFFENSIVE_SUFFIX = ends_with name OFFENSIVE_SUFFIX.
Proof.
  intros Hn. unfold ends_with, join. rewrite rev_app_distr. simpl (rev (SLASH :: name)).
  destruct (rev name) as [|x [|y r]] eqn:E.
  - exfalso. apply Hn. rewrite <- (rev_involutive name), E. reflexivity.
  - simpl. destruct (Byte.eqb _ x); reflexivity.
  - simpl. destruct r; reflexivity.
Qed.

(** ** Sample inputs *)

Definition c1_contents : bytes :=
  bs "Quote zero." ++ [NL; PCT; NL] ++ bs "Quote one." ++ [NL].

Definition c1_path : bytes := bs "quotes/sample".

(** A file whose only quote is enclosed by delimiter lines. *)
Definition one_quote : bytes := [PCT; NL] ++ bs "Quote." ++ [NL; PCT; NL].

(** An offensive-only corpus directory. *)
Definition offensive_only_dir : entry :=
  EDir (bs "quotes") true (ECons (EFile (bs "a-o") (Some one_quote)) ENil).

(** The plain marker precedes the rot13 marker on the same line. *)
Definition c5_contents : bytes :=
  PLAIN_TOKEN ++ [x20] ++ ROT31_TOKEN ++ [NL; PCT; NL] ++ bs "Gur dhbgr." ++ [NL; PCT; NL].

(** A path that is not valid UTF-8. *)
Definition bad_path : bytes := join (bs "quotes") [xff].

(** A corpus with one quote in file [a] and three in file [b]. *)
Definition fair_dir : entry :=
  EDir (bs "quotes") true
    (ECons (EFile (bs "a") (Some ([PCT; NL] ++ bs "a" ++ [NL; PCT; NL])))
    (ECons (EFile (bs "b") (Some ([PCT; NL] ++ bs "b" ++ [NL; PCT; NL] ++ bs "c" ++ [NL; PCT; NL]
                                  ++ bs "d" ++ [NL; PCT; NL])))
      ENil)).


(** A corpus with a subdirectory [more] holding one file, beside a file. *)
Definition nested_dir : entry :=
  EDir (bs "quotes") true
    (ECons (EDir (bs "more") true (ECons (EFile (bs "c") (Some one_quote)) ENil))
    (ECons (EFile (bs "a") (Some one_quote)) ENil)).

(** The command line without any option: the defaults of clap. *)
Definition default_cli : Cli.t :=
  Cli.mk false None (bs "data") "127.0.0.1" None false 17 false 0.

(** ** C1: text before the first delimiter line *)

(** C1 (counterexample): for the file ["Quote zero.\n%\nQuote one.\n"] the
    indexer records one span, [0 .. 12), whose bytes are ["Quote zero.\n"],
    not ["Quote one.\n"]: the text before the first delimiter line is kept. *)
Lemma C1_leading_text_captured :
  process_file c1_path (Some c1_contents) =
    Ok (mkQuoteFile c1_contents [mkQuoteIndex 0 12] Plain Decorous) /\
  read_exact_at c1_contents 0 12 = Ok (bs "Quote zero." ++ [NL]) /\
  bs "Quote zero." ++ [NL] <> bs "Quote one." ++ [NL].
Proof. split; [reflexivity | split; [reflexivity | discriminate]]. Qed.

(** C1 (amended): for every file, whatever its path, whose contents are
    ["Quote zero.\n%\nQuote one.\n"] the indexer records exactly one span,
    whose bytes are ["Quote zero.\n"]; in every file each
    span ends exactly where a delimiter line begins, so text after the
    final delimiter line is never captured. *)
Theorem C1_spans_end_at_delimiters :
  ((forall path, process_file path (Some c1_contents) =
     Ok (mkQuoteFile c1_contents [mkQuoteIndex 0 12] Plain (path_category path))) /\
   read_exact_at c1_contents 0 12 = Ok (bs "Quote zero." ++ [NL])) /\
  (forall path contents qf, process_file path (Some contents) = Ok qf ->
     forall q, In q (quotes qf) ->
       exists d, In d (delim_ranges 0 (split_lines contents)) /\ fst d = span_end q).
Proof.
  split; [split; [intros path; reflexivity | reflexivity]|].
  intros path contents qf H q Hq.
  destruct (process_file_ok _ _ _ H) as (c & st & Hc & Hrun & ->).
  injection Hc as <-.
  pose proof (read_loop_inv _ _ _ _ index_inv_init Hrun) as Hinv.
  exact (inv_end _ _ Hinv q Hq).
Qed.

Lemma C1_spans_end_at_delimiters_witness :
  process_file c1_path (Some c1_contents) =
    Ok (mkQuoteFile c1_contents [mkQuoteIndex 0 12] Plain Decorous) /\
  exists d, In d (delim_ranges 0 (split_lines c1_contents)) /\
            fst d = span_end (mkQuoteIndex 0 12).
Proof.
  pose proof (proj1 (proj1 C1_spans_end_at_delimiters) c1_path) as H.
  split; [exact H|].
  exact (proj2 C1_spans_end_at_delimiters _ _ _ H _ (or_introl eq_refl)).
Defined.

(** ** C2: no eligible file *)

(** C2 (counterexample): a directory holding only an offensive file, read
    with only [Decorous] allowed, makes [from_dir] panic (the [unwrap] of
    [WeightedAliasIndex::new]) instead of returning an error. *)
Lemma C2_offensive_only_panics :
  from_dir [Decorous] (bs "quotes") offensive_only_dir = Panic.
Proof. reflexivity. Qed.

(** C2 (amended): when the traversal meets no I/O error but no file passes
    the category and non-empty filters, [from_dir] panics rather than
    returning an error; it never returns a corpus with no file. *)
Theorem C2_zero_eligible_panics (allowed : list QuoteCategory) (dir : bytes) (d : entry) :
  (no_eligible_dir allowed dir d = true -> from_dir allowed dir d = Panic) /\
  (forall q, from_dir allowed dir d = Ok q -> files q <> []).
Proof.
  split.
  - apply no_eligible_panics.
  - intros q Hq. destruct (from_dir_ok_shape _ _ _ _ Hq) as (_ & _ & _ & _ & Hne & _).
    exact Hne.
Qed.

Lemma C2_zero_eligible_panics_witness :
  no_eligible_dir [Decorous] (bs "quotes") offensive_only_dir = true /\
  from_dir [Decorous] (bs "quotes") offensive_only_dir = Panic.
Proof.
  assert (H : no_eligible_dir [Decorous] (bs "quotes") offensive_only_dir = true)
    by reflexivity.
  split; [exact H | exact (proj1 (C2_zero_eligible_panics _ _ _) H)].
Defined.

(** ** C3: every quote is equally likely *)

(** C3: in every corpus built by [from_dir], with span counts [w1 .. wn],
    [random_quote] reads span [j] of file [i] with probability
    [w_i / (w1 + .. + wn) * 1 / w_i = 1 / (w1 + .. + wn)], whichever file
    it lies in. *)
Theorem C3_per_quote_uniform (allowed : list QuoteCategory) (dir : bytes) (d : entry)
  (q : Quotes) (i j : nat) :
  from_dir allowed dir d = Ok q ->
  i < List.length (files q) ->
  j < List.length (quotes (nth i (files q) no_file)) ->
  (quote_prob q i j ==
   1 / inject_Z (Z.of_nat (sum_list (map (fun f => List.length (quotes f)) (files q)))))%Q.
Proof.
  intros Hq Hi Hj.
  destruct (from_dir_ok_shape _ _ _ _ Hq) as (_ & _ & _ & _ & _ & Hw & _).
  unfold quote_prob, sample_prob, gen_range_prob. rewrite Hw.
  assert (Hn : nth i (map (fun f => List.length (quotes f)) (files q)) 0 =
               List.length (quotes (nth i (files q) no_file))).
  { change 0 with ((fun f => List.length (quotes f)) no_file). apply map_nth. }
  assert (HT : List.length (quotes (nth i (files q) no_file)) <=
               sum_list (map (fun f => List.length (quotes f)) (files q))).
  { rewrite <- Hn. apply sum_list_nth. }
  rewrite Hn.
  destruct (Nat.ltb_lt j (List.length (quotes (nth i (files q) no_file)))) as [_ Hlt].
  rewrite (Hlt Hj).
  revert HT Hj.
  generalize (sum_list (map (fun f => List.length (quotes f)) (files q))) as T.
  generalize (List.length (quotes (nth i (files q) no_file))) as w.
  intros w T HT Hj.
  assert (Hw0 : ~ (inject_Z (Z.of_nat w) == 0)%Q).
  { unfold Qeq; simpl; lia. }
  assert (HT0 : ~ (inject_Z (Z.of_nat T) == 0)%Q).
  { unfold Qeq; simpl; lia. }
  field. split; assumption.
Qed.

Lemma C3_per_quote_uniform_witness :
  exists q, from_dir [Decorous] (bs "quotes") fair_dir = Ok q /\
    1 < List.length (files q) /\
    2 < List.length (quotes (nth 1 (files q) no_file)) /\
    (quote_prob q 1 2 ==
     1 / inject_Z (Z.of_nat (sum_list (map (fun f => List.length (quotes f)) (files q)))))%Q.
Proof.
  destruct (from_dir [Decorous] (bs "quotes") fair_dir) as [q| |] eqn:E;
    [| discriminate | discriminate].
  exists q.
  assert (H1 : 1 < List.length (files q))
    by (injection E as <-; simpl; lia).
  assert (H2 : 2 < List.length (quotes (nth 1 (files q) no_file)))
    by (injection E as <-; simpl; lia).
  split; [reflexivity|]. split; [exact H1|]. split; [exact H2|].
  exact (C3_per_quote_uniform _ _ _ q 1 2 E H1 H2).
Defined.

(** ** C4: the UDP reply loop *)

(** C4: the UDP handler only sends a quote shorter than 512 bytes; each
    quote it obtains is sent if it is shorter than 512 bytes and otherwise
    discarded for a newly requested one; and however many oversize quotes
    arrive in a row, it keeps requesting (the loop has no bound). *)
Theorem C4_udp_sends_short_quotes_only :
  (forall replies quote, udp_handler replies = Sent quote -> List.length quote < 512) /\
  (forall pre quote post, Forall (fun x => 512 <= List.length x) pre ->
     udp_handler (map Some pre ++ Some quote :: post) =
       if List.length quote <? 512 then Sent quote else udp_handler post) /\
  (forall pre, Forall (fun x => 512 <= List.length x) pre ->
     udp_handler (map Some pre) = Waiting).
Proof.
  split; [|split].
  - induction replies as [|[r|] rs IH]; intros quote H; simpl in H; try discriminate.
    destruct (List.length r <? 512) eqn:E.
    + injection H as <-. apply Nat.ltb_lt. exact E.
    + apply IH. exact H.
  - induction pre as [|x pre IH]; intros quote post H; [reflexivity|].
    inversion H as [|? ? Hx Hpre]; subst. simpl.
    replace (List.length x <? 512) with false by (symmetry; apply Nat.ltb_ge; exact Hx).
    apply IH; exact Hpre.
  - induction pre as [|x pre IH]; intros H; [reflexivity|].
    inversion H as [|? ? Hx Hpre]; subst. simpl.
    replace (List.length x <? 512) with false by (symmetry; apply Nat.ltb_ge; exact Hx).
    apply IH; exact Hpre.
Qed.

Lemma C4_udp_sends_short_quotes_only_witness :
  Forall (fun x => 512 <= List.length x) [repeat x41 512] /\
  udp_handler (map Some [repeat x41 512] ++ [Some (bs "Quote.")]) = Sent (bs "Quote.") /\
  udp_handler [Some (repeat x41 600)] = Waiting.
Proof.
  assert (H : Forall (fun x => 512 <= List.length x) [repeat x41 512])
    by (constructor; [rewrite repeat_length; lia | constructor]).
  assert (H' : Forall (fun x => 512 <= List.length x) [repeat x41 600])
    by (constructor; [rewrite repeat_length; lia | constructor]).
  split; [exact H|]. split.
  - exact (proj1 (proj2 C4_udp_sends_short_quotes_only) _ _ [] H).
  - exact (proj2 (proj2 C4_udp_sends_short_quotes_only) _ H').
Defined.

(** ** C5: encoding detection *)

(** C5 (failing input): in ["$FreeBSD$ $SerrOFQ$\n%\n..."] the plain marker
    token occurs first in file order (bytes 0 .. 9, the rot13 marker at 10 ..
    19), yet the file is detected as [Rot13]: both markers lie on the same
    line and the rot13 test comes first. *)
Lemma C5_same_line_rot13_wins :
  firstn 9 c5_contents = PLAIN_TOKEN /\
  firstn 9 (skipn 10 c5_contents) = ROT31_TOKEN /\
  exists qf, process_file c1_path (Some c5_contents) = Ok qf /\ encoding qf = Rot13.
Proof.
  split; [reflexivity|]. split; [reflexivity|].
  eexists. split; [reflexivity | reflexivity].
Qed.

(** C5 (what the code does, against the --dir documentation): the first
    line containing either marker token decides the encoding: [Rot13] if that line contains the rot13 marker (whether
    or not it also contains the plain marker), [Plain] if it contains only
    the plain marker; later lines are ignored; with no marker on any line
    the encoding is [Plain]. *)
Theorem C5_first_marker_line_decides (path contents : bytes) (qf : QuoteFile) :
  process_file path (Some contents) = Ok qf ->
  (forall pre l post,
     split_lines contents = pre ++ l :: post ->
     Forall (fun x => has_marker x = false) pre ->
     (contains l ROT31_TOKEN = true -> encoding qf = Rot13) /\
     (contains l ROT31_TOKEN = false -> contains l PLAIN_TOKEN = true -> encoding qf = Plain)) /\
  (Forall (fun x => has_marker x = false) (split_lines contents) -> encoding qf = Plain).
Proof.
  intros H. destruct (process_file_ok _ _ _ H) as (c & st & Hc & Hrun & ->).
  injection Hc as <-. simpl. split.
  - intros pre l post Hs Hpre. rewrite Hs in Hrun.
    destruct (read_loop_skip pre (l :: post) init_state st eq_refl Hpre Hrun)
      as (st1 & H1 & He1 & Hf1).
    simpl in H1. destruct (utf8_valid l); [|discriminate].
    destruct (index_line_enc_new st1 l Hf1) as [Hf2 He2].
    split.
    + intros Hr. rewrite Hr in He2.
      assert (Hm : has_marker l = true) by (unfold has_marker; rewrite Hr; reflexivity).
      rewrite Hm in Hf2.
      rewrite (read_loop_enc_found _ _ _ Hf2 H1). exact He2.
    + intros Hr Hp. rewrite Hr, Hp in He2.
      assert (Hm : has_marker l = true) by (unfold has_marker; rewrite Hr, Hp; reflexivity).
      rewrite Hm in Hf2.
      rewrite (read_loop_enc_found _ _ _ Hf2 H1). exact He2.
  - intros Hnone. rewrite <- (app_nil_r (split_lines contents)) in Hrun.
    destruct (read_loop_skip _ [] init_state st eq_refl Hnone Hrun) as (st1 & H1 & He1 & _).
    injection H1 as ->. exact He1.
Qed.

Lemma C5_first_marker_line_decides_witness :
  process_file c1_path (Some c5_contents) =
    Ok (mkQuoteFile c5_contents [mkQuoteIndex 0 20; mkQuoteIndex 22 11] Rot13 Decorous) /\
  encoding (mkQuoteFile c5_contents [mkQuoteIndex 0 20; mkQuoteIndex 22 11] Rot13 Decorous) = Rot13.
Proof.
  assert (H : process_file c1_path (Some c5_contents) =
                Ok (mkQuoteFile c5_contents [mkQuoteIndex 0 20; mkQuoteIndex 22 11] Rot13 Decorous))
    by reflexivity.
  split; [exact H|].
  apply (proj1 (C5_first_marker_line_decides _ _ _ H) []
           (PLAIN_TOKEN ++ [x20] ++ ROT31_TOKEN ++ [NL])
           (split_lines ([PCT; NL] ++ bs "Gur dhbgr." ++ [NL; PCT; NL])));
    [reflexivity | constructor | reflexivity].
Defined.

(** ** C6: rot13 *)

(** C6: rot13 is an involution on every byte sequence; one application
    rotates an ASCII upper-case (lower-case) letter by 13 positions within
    the upper-case (lower-case) alphabet and leaves every other byte
    unchanged. *)
Theorem C6_rot13_involution (text : bytes) :
  rot13 (rot13 text) = text /\
  forall i c, nth_error text i = Some c ->
    exists c', nth_error (rot13 text) i = Some c' /\
      (is_upper c = true ->
         is_upper c' = true /\ Byte.to_nat c' = 65 + (Byte.to_nat c - 65 + 13) mod 26) /\
      (is_lower c = true ->
         is_lower c' = true /\ Byte.to_nat c' = 97 + (Byte.to_nat c - 97 + 13) mod 26) /\
      (is_upper c = false -> is_lower c = false -> c' = c).
Proof.
  split.
  - unfold rot13. rewrite map_map.
    rewrite (map_ext _ (fun c => c) rot13_byte_involutive). apply map_id.
  - intros i c Hc. exists (rot13_byte c). split.
    + unfold rot13. rewrite nth_error_map, Hc. reflexivity.
    + apply rot13_byte_action.
Qed.

Lemma C6_rot13_involution_witness :
  nth_error (bs "Hello, Zz!") 0 = Some "H"%byte /\
  exists c', nth_error (rot13 (bs "Hello, Zz!")) 0 = Some c' /\
    (is_upper "H"%byte = true ->
       is_upper c' = true /\ Byte.to_nat c' = 65 + (Byte.to_nat "H"%byte - 65 + 13) mod 26) /\
    (is_lower "H"%byte = true ->
       is_lower c' = true /\ Byte.to_nat c' = 97 + (Byte.to_nat "H"%byte - 97 + 13) mod 26) /\
    (is_upper "H"%byte = false -> is_lower "H"%byte = false -> c' = "H"%byte).
Proof.
  assert (H : nth_error (bs "Hello, Zz!") 0 = Some "H"%byte) by reflexivity.
  split; [exact H | exact (proj2 (C6_rot13_involution _) 0 _ H)].
Defined.

(** ** C7: the spans of a file *)

(** C7: for every file it indexes, each span [process_file] records has a
    positive length, the spans appear in increasing, non-overlapping order,
    and no byte of a span lies in a line starting with [%] (the lines being
    those [read_line] returns, which make up the file). *)
Theorem C7_spans_wellformed (path contents : bytes) (qf : QuoteFile) :
  process_file path (Some contents) = Ok qf ->
  List.concat (split_lines contents) = contents /\
  (forall q, In q (quotes qf) -> 0 < length q) /\
  (forall i j qi qj, i < j -> nth_error (quotes qf) i = Some qi ->
     nth_error (quotes qf) j = Some qj -> span_end qi <= offset qj) /\
  (forall q d p, In q (quotes qf) -> In d (delim_ranges 0 (split_lines contents)) ->
     offset q <= p < span_end q -> ~ (fst d <= p < fst d + snd d)).
Proof.
  intros H. destruct (process_file_ok _ _ _ H) as (c & st & Hc & Hrun & ->).
  injection Hc as <-. simpl.
  pose proof (read_loop_inv _ _ _ _ index_inv_init Hrun) as Hinv. simpl in Hinv.
  split; [apply split_lines_concat|]. split; [|split].
  - exact (inv_pos _ _ Hinv).
  - exact (FOP_nth _ _ (inv_sorted _ _ Hinv)).
  - intros q d p Hq Hd Hp Hin.
    destruct (inv_disj _ _ Hinv q d Hq Hd); lia.
Qed.

Lemma C7_spans_wellformed_witness :
  process_file c1_path (Some c5_contents) =
    Ok (mkQuoteFile c5_contents [mkQuoteIndex 0 20; mkQuoteIndex 22 11] Rot13 Decorous) /\
  span_end (mkQuoteIndex 0 20) <= offset (mkQuoteIndex 22 11).
Proof.
  assert (H : process_file c1_path (Some c5_contents) =
    Ok (mkQuoteFile c5_contents [mkQuoteIndex 0 20; mkQuoteIndex 22 11] Rot13 Decorous))
    by reflexivity.
  split; [exact H|].
  destruct (C7_spans_wellformed _ _ _ H) as (_ & _ & Hord & _).
  apply (Hord 0 1); [lia | reflexivity | reflexivity].
Defined.

(** ** C8, C9: the category *)

(** C8 (counterexample): the file [quotes/\xff] has a path that is not
    valid UTF-8 and is categorised [Offensive], although its name does
    not end with ["-o"]. *)
Lemma C8_non_utf8_name_offensive :
  process_file bad_path (Some one_quote) =
    Ok (mkQuoteFile one_quote [mkQuoteIndex 2 7] Plain Offensive) /\
  ends_with [xff] OFFENSIVE_SUFFIX = false.
Proof. split; reflexivity. Qed.

(** C8 (amended): for a file [dir/name] (non-empty name) whose path is
    valid UTF-8, the category is [Offensive] exactly when [name] ends with
    ["-o"] and [Decorous] otherwise; a path that is not valid UTF-8 gives
    [Offensive]; the category depends on the path alone, not on the
    contents or the detected encoding. *)
Theorem C8_category_from_name (dir name : bytes) (fh : option bytes) (qf : QuoteFile) :
  name <> [] ->
  process_file (join dir name) fh = Ok qf ->
  (utf8_valid (join dir name) = true ->
     (category qf = Offensive <-> ends_with name OFFENSIVE_SUFFIX = true)) /\
  (utf8_valid (join dir name) = false -> category qf = Offensive) /\
  (forall fh' qf', process_file (join dir name) fh' = Ok qf' -> category qf' = category qf).
Proof.
  intros Hn H.
  destruct (process_file_ok _ _ _ H) as (c & st & _ & _ & ->). simpl.
  unfold path_category, to_str. split; [|split].
  - intros Hv. rewrite Hv, (ends_with_join dir name Hn).
    destruct (ends_with name OFFENSIVE_SUFFIX); split; intros; congruence.
  - intros Hv. rewrite Hv. reflexivity.
  - intros fh' qf' H'.
    destruct (process_file_ok _ _ _ H') as (c' & st' & _ & _ & ->). reflexivity.
Qed.

Lemma C8_category_from_name_witness :
  bs "a-o" <> [] /\
  process_file (join (bs "quotes") (bs "a-o")) (Some one_quote) =
    Ok (mkQuoteFile one_quote [mkQuoteIndex 2 7] Plain Offensive) /\
  ends_with (bs "a-o") OFFENSIVE_SUFFIX = true.
Proof.
  assert (Hn : bs "a-o" <> []) by discriminate.
  assert (H : process_file (join (bs "quotes") (bs "a-o")) (Some one_quote) =
                Ok (mkQuoteFile one_quote [mkQuoteIndex 2 7] Plain Offensive))
    by reflexivity.
  split; [exact Hn|]. split; [exact H|].
  apply (proj1 (proj1 (C8_category_from_name _ _ _ _ Hn H) eq_refl)). reflexivity.
Defined.

(** C9: a file whose path is not valid UTF-8 is categorised [Offensive],
    whatever its name: [to_str] fails and the suffix itself is tested. *)
Theorem C9_non_utf8_path_offensive (path : bytes) (fh : option bytes) (qf : QuoteFile) :
  utf8_valid path = false ->
  process_file path fh = Ok qf ->
  category qf = Offensive.
Proof.
  intros Hv H.
  destruct (process_file_ok _ _ _ H) as (c & st & _ & _ & ->). simpl.
  unfold path_category, to_str. rewrite Hv. reflexivity.
Qed.

Lemma C9_non_utf8_path_offensive_witness :
  utf8_valid bad_path = false /\
  process_file bad_path (Some one_quote) =
    Ok (mkQuoteFile one_quote [mkQuoteIndex 2 7] Plain Offensive) /\
  category (mkQuoteFile one_quote [mkQuoteIndex 2 7] Plain Offensive) = Offensive.
Proof.
  assert (Hv : utf8_valid bad_path = false) by reflexivity.
  assert (H : process_file bad_path (Some one_quote) =
                Ok (mkQuoteFile one_quote [mkQuoteIndex 2 7] Plain Offensive))
    by reflexivity.
  split; [exact Hv|]. split; [exact H|].
  exact (C9_non_utf8_path_offensive _ _ _ Hv H).
Defined.

(** ** C10: no panic in the selection *)

(** C10: in every corpus built by [from_dir] each file has a span, the
    sampler ranges over exactly the file indices, and so [random_quote]
    never panics: neither [files[i]], [gen_range(0..len)] nor [quotes[i]]
    can fail (only an I/O error remains possible). *)
Theorem C10_selection_never_panics (allowed : list QuoteCategory) (dir : bytes)
  (d : entry) (q : Quotes) :
  from_dir allowed dir d = Ok q ->
  sample_range (file_weights q) = List.length (files q) /\
  (forall f, In f (files q) -> quotes f <> []) /\
  (forall i r, i < sample_range (file_weights q) -> random_quote q i r <> Panic).
Proof.
  intros Hq.
  destruct (from_dir_ok_shape _ _ _ _ Hq) as (_ & _ & _ & _ & _ & Hw & _).
  assert (Hr : sample_range (file_weights q) = List.length (files q)).
  { unfold sample_range. rewrite Hw. apply length_map. }
  pose proof (from_dir_quotes_nonempty allowed d dir q Hq) as Hne.
  split; [exact Hr|]. split; [exact Hne|].
  intros i r Hi. rewrite Hr in Hi.
  unfold random_quote, read_quote.
  destruct (nth_error (files q) i) as [file|] eqn:Ef.
  2:{ apply nth_error_None in Ef. lia. }
  assert (Hf : quotes file <> []) by (apply Hne; eapply nth_error_In; exact Ef).
  unfold gen_range.
  destruct (List.length (quotes file) =? 0) eqn:E0.
  { apply Nat.eqb_eq, length_zero_iff_nil in E0. contradiction. }
  simpl.
  destruct (nth_error (quotes file) (r mod List.length (quotes file))) as [qi|] eqn:Eq.
  2:{ apply nth_error_None in Eq. apply Nat.eqb_neq in E0.
      pose proof (Nat.mod_upper_bound r _ E0). lia. }
  unfold read_exact_at.
  destruct (List.length (firstn (length qi) (skipn (offset qi) (file_handle file))) =? length qi);
    simpl; intros Hc; inversion Hc.
Qed.

Lemma C10_selection_never_panics_witness :
  exists q, from_dir [Decorous] (bs "quotes") fair_dir = Ok q /\
    sample_range (file_weights q) = 2 /\ random_quote q 1 7 <> Panic.
Proof.
  destruct (from_dir [Decorous] (bs "quotes") fair_dir) as [q| |] eqn:E;
    [| discriminate | discriminate].
  exists q.
  destruct (C10_selection_never_panics _ _ _ _ E) as (Hr & _ & Hp).
  assert (H2 : sample_range (file_weights q) = 2)
    by (rewrite Hr; injection E as <-; reflexivity).
  split; [reflexivity|]. split; [exact H2|].
  apply Hp. lia.
Defined.

(** ** Further properties of the indexer and the corpus *)

(** *** UTF-8 validity of a file and of its lines *)

Lemma utf8_valid_cons (b0 : byte) (r0 : bytes) :
  utf8_valid (b0 :: r0) =
    match utf8_width b0, r0 with
    | 1, _ => utf8_valid r0
    | 2, b1 :: r1 => cont_byte b1 && utf8_valid r1
    | 3, b1 :: b2 :: r2 => second_ok b0 b1 && cont_byte b2 && utf8_valid r2
    | 4, b1 :: b2 :: b3 :: r3 =>
        second_ok b0 b1 && cont_byte b2 && cont_byte b3 && utf8_valid r3
    | _, _ => false
    end.
Proof. reflexivity. Qed.

Lemma second_ok_nl (b0 : byte) : second_ok b0 NL = false.
Proof. unfold second_ok. repeat destruct (_ =? _); reflexivity. Qed.

Lemma cont_byte_nl : cont_byte NL = false.
Proof. reflexivity. Qed.

Ltac close_nl :=
  repeat match goal with
         | |- context [match ?l with [] => _ | _ :: _ => _ end] => destruct l
         end; simpl; rewrite ?second_ok_nl, ?cont_byte_nl; btauto.

Lemma utf8_valid_nl_split (x y : bytes) :
  utf8_valid (x ++ NL :: y) = utf8_valid (x ++ [NL]) && utf8_valid y.
Proof.
  remember (List.length x) as n eqn:Hn. revert x Hn.
  induction n as [n IH] using lt_wf_ind. intros x Hn.
  destruct x as [|b0 r0]; [reflexivity|].
  rewrite <- !app_comm_cons, !(utf8_valid_cons b0).
  assert (IH' : forall r, List.length r < n ->
            utf8_valid (r ++ NL :: y) = utf8_valid (r ++ [NL]) && utf8_valid y)
    by (intros r Hr; exact (IH _ Hr r eq_refl)).
  simpl in Hn.
  destruct (utf8_width b0) as [|[|[|[|[|w]]]]].
  - reflexivity.
  - apply IH'. lia.
  - destruct r0 as [|b1 r1]; simpl; [close_nl|].
    rewrite IH' by (simpl in Hn; lia). btauto.
  - destruct r0 as [|b1 [|b2 r2]]; simpl; [close_nl | close_nl |].
    rewrite IH' by (simpl in Hn; lia). btauto.
  - destruct r0 as [|b1 [|b2 [|b3 r3]]]; simpl; [close_nl | close_nl | close_nl |].
    rewrite IH' by (simpl in Hn; lia). btauto.
  - reflexivity.
Qed.

Lemma split_lines_acc_valid (s cur : bytes) :
  forallb utf8_valid (split_lines_acc cur s) = utf8_valid (rev cur ++ s).
Proof.
  revert cur; induction s as [|b s IH]; intros cur; simpl.
  - destruct cur as [|c cur]; [reflexivity|]. simpl. rewrite app_nil_r, andb_true_r. reflexivity.
  - destruct (Byte.eqb b NL) eqn:Eb.
    + apply Byte.byte_dec_bl in Eb. subst b. simpl.
      rewrite IH. simpl.
      symmetry. apply utf8_valid_nl_split.
    + rewrite IH. simpl. rewrite <- app_assoc. reflexivity.
Qed.

Lemma split_lines_valid (s : bytes) :
  forallb utf8_valid (split_lines s) = utf8_valid s.
Proof. apply split_lines_acc_valid. Qed.

Lemma read_loop_spec (ls : list bytes) :
  forall st, read_loop ls st =
    if forallb utf8_valid ls then Ok (fold_left index_line ls st) else Err InvalidData.
Proof.
  induction ls as [|l ls IH]; intros st; simpl; [reflexivity|].
  destruct (utf8_valid l); simpl; [apply IH | reflexivity].
Qed.

Lemma fold_index_offset (ls : list bytes) :
  forall st, st_offset (fold_left index_line ls st) = st_offset st + List.length (List.concat ls).
Proof.
  induction ls as [|l ls IH]; intros st; simpl; [lia|].
  rewrite IH. destruct (index_line_fields st l) as (Ho & _). rewrite Ho, length_app. lia.
Qed.

Lemma process_file_readable (path contents : bytes) :
  process_file path (Some contents) =
    if utf8_valid contents
    then Ok (mkQuoteFile contents (st_quotes (index_result contents))
               (st_encoding (index_result contents)) (path_category path))
    else Err InvalidData.
Proof.
  unfold process_file. rewrite read_loop_spec, split_lines_valid.
  destruct (utf8_valid contents); reflexivity.
Qed.

Lemma process_file_ok_valid (path contents : bytes) (qf : QuoteFile) :
  process_file path (Some contents) = Ok qf -> utf8_valid contents = true.
Proof.
  rewrite process_file_readable. destruct (utf8_valid contents); [reflexivity | discriminate].
Qed.

Lemma process_file_spans_in_file (path contents : bytes) (qf : QuoteFile) :
  process_file path (Some contents) = Ok qf ->
  file_handle qf = contents /\
  forall q, In q (quotes qf) -> span_end q <= List.length contents.
Proof.
  intros H. destruct (process_file_ok _ _ _ H) as (c & st & Hc & Hrun & ->).
  injection Hc as <-. split; [reflexivity|]. simpl.
  pose proof (read_loop_inv _ _ _ _ index_inv_init Hrun) as Hinv.
  rewrite read_loop_spec in Hrun.
  destruct (forallb utf8_valid (split_lines contents)); [|discriminate].
  injection Hrun as Hst.
  assert (Ho : st_offset st = List.length contents).
  { rewrite <- Hst, fold_index_offset, split_lines_concat. reflexivity. }
  intros q Hq. pose proof (inv_q_last _ _ Hinv q Hq). pose proof (inv_last _ _ Hinv). lia.
Qed.

Lemma from_dir_origin (allowed : list QuoteCategory) :
  forall d dir q, from_dir allowed dir d = Ok q ->
  io_clean_dir d = true /\ forall f, In f (files q) -> file_origin allowed f.
Proof.
  apply (entry_mut
    (fun d => forall dir q, from_dir allowed dir d = Ok q ->
       io_clean_dir d = true /\ forall f, In f (files q) -> file_origin allowed f)
    (fun es => forall dir acc fs, from_entries allowed dir es acc = Ok fs ->
       io_clean_entries es = true /\
       forall f, In f fs -> In f acc \/ file_origin allowed f)).
  - intros name readable children IH dir q Hq.
    destruct (from_dir_ok_shape _ _ _ _ Hq) as (n' & ch & Hd & He & _).
    injection Hd as Hn Hr Hc. subst.
    destruct (IH dir [] (files q) He) as [Hcl Hf].
    split; [exact Hcl|]. intros f Hin. destruct (Hf f Hin) as [[]|Ho]. exact Ho.
  - intros name contents dir q Hq. discriminate.
  - intros name dir q Hq. discriminate.
  - intros dir acc fs H. simpl in H. injection H as <-. split; [reflexivity|]. auto.
  - intros e IHe rest IHr dir acc fs H.
    destruct e as [name readable children|name contents|name].
    + rewrite from_entries_dir in H.
      destruct (from_dir allowed (join dir name) (EDir name readable children)) as [sub| |] eqn:Es;
        simpl in H; try discriminate.
      destruct (IHe _ _ Es) as [Hcl Hsub].
      destruct (IHr dir _ fs H) as [Hcr Hf].
      split; [cbn [io_clean_entries]; rewrite Hcl, Hcr; reflexivity|].
      intros f Hin. destruct (Hf f Hin) as [Hi|Ho]; [|right; exact Ho].
      apply in_app_or in Hi. destruct Hi as [Hi|Hi]; [left; exact Hi|].
      right. destruct sub as [sfs sw]. apply (Hsub f Hi).
    + simpl in H.
      destruct (process_file (join dir name) contents) as [file| |] eqn:Ep; simpl in H;
        try discriminate.
      assert (Hc : exists c, contents = Some c /\ utf8_valid c = true).
      { destruct contents as [c|]; [|discriminate].
        exists c. split; [reflexivity | exact (process_file_ok_valid _ _ _ Ep)]. }
      destruct Hc as (c & -> & Hv).
      fold (eligible allowed file) in H.
      destruct (eligible allowed file) eqn:Eel.
      * destruct (IHr dir _ fs H) as [Hcr Hf].
        split; [cbn [io_clean_entries]; rewrite Hv, Hcr; reflexivity|].
        intros f Hin. destruct (Hf f Hin) as [Hi|Ho]; [|right; exact Ho].
        apply in_app_or in Hi. destruct Hi as [Hi|[<-|[]]]; [left; exact Hi|].
        right. split; [exists (join dir name), c; exact Ep | exact Eel].
      * destruct (IHr dir _ fs H) as [Hcr Hf].
        split; [cbn [io_clean_entries]; rewrite Hv, Hcr; reflexivity | exact Hf].
    + simpl in H. destruct (IHr dir _ fs H) as [Hcr Hf].
      split; [cbn [io_clean_entries]; exact Hcr | exact Hf].
Qed.

Lemma read_exact_at_in_bounds (h : bytes) (off len : nat) :
  off + len <= List.length h ->
  read_exact_at h off len = Ok (firstn len (skipn off h)) /\
  List.length (firstn len (skipn off h)) = len.
Proof.
  intros Hb. assert (Hl : List.length (firstn len (skipn off h)) = len).
  { rewrite length_firstn, length_skipn. lia. }
  unfold read_exact_at. rewrite Hl, Nat.eqb_refl. auto.
Qed.

(** ** Extra properties *)

(** X1: [process_file] on a file it can open fails with [InvalidData]
    exactly when the contents are not valid UTF-8 (one [read_line] then
    fails); otherwise it succeeds and keeps the contents as its handle. *)
Theorem X1_process_file_utf8 (path contents : bytes) :
  (process_file path (Some contents) = Err InvalidData <-> utf8_valid contents = false) /\
  (utf8_valid contents = true ->
     exists qf, process_file path (Some contents) = Ok qf /\ file_handle qf = contents).
Proof.
  rewrite process_file_readable.
  destruct (utf8_valid contents); split; [split; discriminate| |split; reflexivity|].
  - intros _. eexists. split; reflexivity.
  - intros H. discriminate.
Qed.

Lemma X1_process_file_utf8_witness :
  process_file c1_path (Some [xff]) = Err InvalidData /\
  exists qf, process_file c1_path (Some c1_contents) = Ok qf /\ file_handle qf = c1_contents.
Proof.
  split.
  - exact (proj2 (proj1 (X1_process_file_utf8 c1_path [xff])) eq_refl).
  - exact (proj2 (X1_process_file_utf8 c1_path c1_contents) eq_refl).
Defined.

(** X2: every span [process_file] records lies inside the file, so the
    [seek] and [read_exact] of [read_quote] on it return exactly its
    bytes and never stop at the end of the file. *)
Theorem X2_spans_within_file (path contents : bytes) (qf : QuoteFile) :
  process_file path (Some contents) = Ok qf ->
  forall q, In q (quotes qf) ->
    span_end q <= List.length contents /\
    read_exact_at (file_handle qf) (offset q) (length q) =
      Ok (firstn (length q) (skipn (offset q) contents)).
Proof.
  intros H q Hq. destruct (process_file_spans_in_file _ _ _ H) as [Hh Hin].
  specialize (Hin q Hq). split; [exact Hin|].
  rewrite Hh. apply read_exact_at_in_bounds. exact Hin.
Qed.

Lemma X2_spans_within_file_witness :
  process_file c1_path (Some c1_contents) =
    Ok (mkQuoteFile c1_contents [mkQuoteIndex 0 12] Plain Decorous) /\
  span_end (mkQuoteIndex 0 12) <= List.length c1_contents /\
  read_exact_at c1_contents 0 12 = Ok (firstn 12 (skipn 0 c1_contents)).
Proof.
  assert (H : process_file c1_path (Some c1_contents) =
                Ok (mkQuoteFile c1_contents [mkQuoteIndex 0 12] Plain Decorous))
    by reflexivity.
  split; [exact H|].
  exact (X2_spans_within_file _ _ _ H _ (or_introl eq_refl)).
Defined.

(** X3: every file of a corpus built by [from_dir] has one of the allowed
    categories and at least one span, and is the result of indexing some
    file of the tree. *)
Theorem X3_corpus_categories_allowed (allowed : list QuoteCategory) (dir : bytes)
  (d : entry) (q : Quotes) :
  from_dir allowed dir d = Ok q ->
  forall f, In f (files q) ->
    In (category f) allowed /\ quotes f <> [] /\
    exists path contents, process_file path (Some contents) = Ok f.
Proof.
  intros Hq f Hf. destruct (proj2 (from_dir_origin allowed d dir q Hq) f Hf) as [Ho Hel].
  unfold eligible in Hel. apply andb_true_iff in Hel. destruct Hel as [Hc Hn].
  split; [|split; [|exact Ho]].
  - apply existsb_exists in Hc. destruct Hc as (c & Hc & Heq).
    destruct (category f), c; try discriminate; exact Hc.
  - intros Hnil. rewrite Hnil in Hn. discriminate.
Qed.

Lemma X3_corpus_categories_allowed_witness :
  exists q, from_dir [Decorous] (bs "quotes") fair_dir = Ok q /\
    forall f, In f (files q) -> In (category f) [Decorous].
Proof.
  destruct (from_dir [Decorous] (bs "quotes") fair_dir) as [q| |] eqn:E;
    [| discriminate | discriminate].
  exists q. split; [reflexivity|].
  intros f Hf. exact (proj1 (X3_corpus_categories_allowed _ _ _ _ E f Hf)).
Defined.

(** X4: [from_dir] only succeeds on a tree it reads without any I/O error:
    an unreadable directory, a file that cannot be opened or a file that
    is not UTF-8 anywhere in the tree is never skipped. *)
Theorem X4_corpus_build_no_io_error (allowed : list QuoteCategory) (dir : bytes)
  (d : entry) (q : Quotes) :
  from_dir allowed dir d = Ok q -> io_clean_dir d = true.
Proof. intros Hq. exact (proj1 (from_dir_origin allowed d dir q Hq)). Qed.

Lemma X4_corpus_build_no_io_error_witness :
  exists q, from_dir [Decorous] (bs "quotes") fair_dir = Ok q /\ io_clean_dir fair_dir = true.
Proof.
  destruct (from_dir [Decorous] (bs "quotes") fair_dir) as [q| |] eqn:E;
    [| discriminate | discriminate].
  exists q. split; [reflexivity | exact (X4_corpus_build_no_io_error _ _ _ _ E)].
Defined.

Lemma random_quote_span (allowed : list QuoteCategory) (dir : bytes)
  (d : entry) (q : Quotes) (i r : nat) :
  from_dir allowed dir d = Ok q ->
  i < sample_range (file_weights q) ->
  exists f qi, nth_error (files q) i = Some f /\
    nth_error (quotes f) (r mod List.length (quotes f)) = Some qi /\
    random_quote q i r = Ok (decoded_span f qi) /\
    List.length (decoded_span f qi) = length qi.
Proof.
  intros Hq Hi.
  destruct (from_dir_ok_shape _ _ _ _ Hq) as (_ & _ & _ & _ & _ & Hw & _).
  assert (Hr : sample_range (file_weights q) = List.length (files q)).
  { unfold sample_range. rewrite Hw. apply length_map. }
  rewrite Hr in Hi.
  destruct (nth_error (files q) i) as [f|] eqn:Ef.
  2:{ apply nth_error_None in Ef. lia. }
  assert (Hin : In f (files q)) by (eapply nth_error_In; exact Ef).
  destruct (proj2 (from_dir_origin allowed d dir q Hq) f Hin) as [(p & c & Hp) Hel].
  assert (Hne : List.length (quotes f) <> 0).
  { unfold eligible in Hel. apply andb_true_iff in Hel. destruct Hel as [_ Hn].
    apply negb_true_iff, Nat.eqb_neq in Hn. exact Hn. }
  destruct (nth_error (quotes f) (r mod List.length (quotes f))) as [qi|] eqn:Eq.
  2:{ apply nth_error_None in Eq. pose proof (Nat.mod_upper_bound r _ Hne). lia. }
  exists f, qi. split; [reflexivity|]. split; [exact Eq|].
  destruct (process_file_spans_in_file _ _ _ Hp) as [Hh Hsp].
  specialize (Hsp qi (nth_error_In _ _ Eq)). unfold span_end in Hsp.
  rewrite <- Hh in Hsp.
  destruct (read_exact_at_in_bounds (file_handle f) (offset qi) (length qi) Hsp) as [Hrd Hlen].
  unfold random_quote, read_quote, gen_range. rewrite Ef.
  apply Nat.eqb_neq in Hne. rewrite Hne. simpl. rewrite Eq. simpl. rewrite Hrd. simpl.
  unfold decoded_span. split; [reflexivity|].
  destruct (encoding f); [exact Hlen | unfold rot13; rewrite length_map; exact Hlen].
Qed.

(** X5: on a corpus built by [from_dir], [random_quote] never fails: for
    every file index the sampler can return and every raw draw [r], it
    returns the bytes of span [r mod n] of that file (its [n] spans),
    rot13-decoded when the file is [Rot13]. *)
Theorem X5_random_quote_reads_span (allowed : list QuoteCategory) (dir : bytes)
  (d : entry) (q : Quotes) (i r : nat) :
  from_dir allowed dir d = Ok q ->
  i < sample_range (file_weights q) ->
  exists f qi, nth_error (files q) i = Some f /\
    nth_error (quotes f) (r mod List.length (quotes f)) = Some qi /\
    random_quote q i r = Ok (decoded_span f qi) /\
    List.length (decoded_span f qi) = length qi.
Proof. intros Hq Hi. exact (random_quote_span _ _ _ _ _ _ Hq Hi). Qed.


Lemma X5_random_quote_reads_span_witness :
  exists q, from_dir [Decorous] (bs "quotes") fair_dir = Ok q /\
    1 < sample_range (file_weights q) /\
    exists f qi, nth_error (files q) 1 = Some f /\
      nth_error (quotes f) (7 mod List.length (quotes f)) = Some qi /\
      random_quote q 1 7 = Ok (decoded_span f qi) /\
      List.length (decoded_span f qi) = length qi.
Proof.
  destruct (from_dir [Decorous] (bs "quotes") fair_dir) as [q| |] eqn:E;
    [| discriminate | discriminate].
  exists q.
  assert (H1 : 1 < sample_range (file_weights q)) by (vm_compute in E; injection E as <-; vm_compute; lia).
  split; [reflexivity|]. split; [exact H1|].
  exact (X5_random_quote_reads_span _ _ _ q 1 7 E H1).
Defined.

(** X6: the public [read_quote] on a corpus built by [from_dir] panics
    exactly when the file index is out of range ([self.files[file_index]]). *)
Theorem X6_read_quote_panics_iff_out_of_range (allowed : list QuoteCategory) (dir : bytes)
  (d : entry) (q : Quotes) (i r : nat) :
  from_dir allowed dir d = Ok q ->
  (read_quote q i r = Panic <-> List.length (files q) <= i).
Proof.
  intros Hq. split.
  - intros Hp. destruct (Nat.lt_ge_cases i (List.length (files q))) as [Hi|Hi]; [|exact Hi].
    exfalso.
    destruct (from_dir_ok_shape _ _ _ _ Hq) as (_ & _ & _ & _ & _ & Hw & _).
    assert (Hr : i < sample_range (file_weights q)).
    { unfold sample_range. rewrite Hw, length_map. exact Hi. }
    destruct (random_quote_span allowed dir d q i r Hq Hr) as (f & qi & _ & _ & Hy & _).
    unfold random_quote in Hy. rewrite Hy in Hp. discriminate.
  - intros Hi. unfold read_quote.
    destruct (nth_error (files q) i) eqn:Ef; [|reflexivity].
    apply nth_error_None in Hi. congruence.
Qed.

Lemma X6_read_quote_panics_iff_out_of_range_witness :
  exists q, from_dir [Decorous] (bs "quotes") fair_dir = Ok q /\
    read_quote q 2 0 = Panic /\ read_quote q 1 0 <> Panic.
Proof.
  destruct (from_dir [Decorous] (bs "quotes") fair_dir) as [q| |] eqn:E;
    [| discriminate | discriminate].
  exists q.
  assert (H2 : List.length (files q) = 2) by (injection E as <-; reflexivity).
  split; [reflexivity|]. split.
  - apply (X6_read_quote_panics_iff_out_of_range _ _ _ _ 2 0 E). lia.
  - rewrite (X6_read_quote_panics_iff_out_of_range _ _ _ _ 1 0 E). lia.
Defined.

(** *** Helpers for X7 .. X13 *)

Lemma fold_index_gaps (ls : list bytes) :
  forall st, st_quotes (fold_left index_line ls st) =
    st_quotes st ++ gaps (st_last_offset st) (delim_ranges (st_offset st) ls).
Proof.
  induction ls as [|l ls IH]; intros st; cbn [fold_left delim_ranges gaps].
  - rewrite app_nil_r. reflexivity.
  - rewrite IH. destruct (index_line_fields st l) as (Ho & Hq & Hl).
    rewrite Ho, Hq, Hl.
    destruct (starts_with l SEPARATOR); cbn [app gaps].
    + destruct (0 <? st_offset st - st_last_offset st); cbn [app];
        rewrite <- ?app_assoc; reflexivity.
    + reflexivity.
Qed.

Lemma process_file_quotes_gaps (path contents : bytes) (qf : QuoteFile) :
  process_file path (Some contents) = Ok qf ->
  quotes qf = gaps 0 (delim_ranges 0 (split_lines contents)).
Proof.
  intros H. destruct (process_file_ok _ _ _ H) as (c & st & Hc & Hrun & ->).
  injection Hc as <-. simpl.
  rewrite read_loop_spec in Hrun.
  destruct (forallb utf8_valid (split_lines contents)); [|discriminate].
  injection Hrun as <-. rewrite fold_index_gaps. reflexivity.
Qed.

Lemma delim_ranges_none (ls : list bytes) :
  forall off, Forall (fun l => starts_with l SEPARATOR = false) ls -> delim_ranges off ls = [].
Proof.
  induction ls as [|l ls IH]; intros off H; [reflexivity|].
  inversion H as [|? ? Hl Hls]; subst. cbn [delim_ranges]. rewrite Hl. apply IH; exact Hls.
Qed.

Lemma from_dir_subdirs (allowed : list QuoteCategory) :
  forall d dir q, from_dir allowed dir d = Ok q ->
  forall p e, In (p, e) (subdirs dir d) -> exists q', from_dir allowed p e = Ok q'.
Proof.
  apply (entry_mut
    (fun d => forall dir q, from_dir allowed dir d = Ok q ->
       forall p e, In (p, e) (subdirs dir d) -> exists q', from_dir allowed p e = Ok q')
    (fun es => forall dir acc fs, from_entries allowed dir es acc = Ok fs ->
       forall p e, In (p, e) (subdirs_entries dir es) -> exists q', from_dir allowed p e = Ok q')).
  - intros name readable children IH dir q Hq p e Hin.
    destruct (from_dir_ok_shape _ _ _ _ Hq) as (n' & ch & Hd & He & _).
    injection Hd as Hn Hr Hc. subst.
    exact (IH dir [] (files q) He p e Hin).
  - intros name contents dir q Hq. discriminate.
  - intros name dir q Hq. discriminate.
  - intros dir acc fs _ p e [].
  - intros e IHe rest IHr dir acc fs H p e' Hin.
    destruct e as [name readable children|name contents|name].
    + rewrite from_entries_dir in H.
      destruct (from_dir allowed (join dir name) (EDir name readable children)) as [sub| |] eqn:Es;
        simpl in H; try discriminate.
      cbn [subdirs_entries] in Hin. apply in_app_or in Hin.
      destruct Hin as [[Heq|Hin]|Hin].
      * injection Heq as <- <-. exists sub. exact Es.
      * exact (IHe _ _ Es p e' Hin).
      * exact (IHr dir _ fs H p e' Hin).
    + simpl in H.
      destruct (process_file (join dir name) contents) as [file| |]; simpl in H; try discriminate.
      cbn [subdirs_entries app] in Hin.
      destruct (existsb (cat_eqb (category file)) allowed &&
                negb (List.length (quotes file) =? 0)).
      * exact (IHr dir _ fs H p e' Hin).
      * exact (IHr dir _ fs H p e' Hin).
    + simpl in H. cbn [subdirs_entries app] in Hin. exact (IHr dir _ fs H p e' Hin).
Qed.

Lemma decorous_origin (f : QuoteFile) :
  file_origin [Decorous] f ->
  category f = Decorous /\
  exists path contents, process_file path (Some contents) = Ok f /\
    utf8_valid path = true /\ ends_with path OFFENSIVE_SUFFIX = false.
Proof.
  intros [(path & contents & Hp) Hel].
  assert (Hc : category f = Decorous).
  { unfold eligible in Hel. apply andb_true_iff in Hel. destruct Hel as [Hc _].
    destruct (category f); [reflexivity | discriminate]. }
  split; [exact Hc|]. exists path, contents. split; [exact Hp|].
  destruct (process_file_ok _ _ _ Hp) as (c & st & _ & _ & Hf).
  rewrite Hf in Hc. simpl in Hc. unfold path_category, to_str in Hc.
  destruct (utf8_valid path); [|discriminate].
  split; [reflexivity|].
  destruct (ends_with path OFFENSIVE_SUFFIX); [discriminate | reflexivity].
Qed.

(** X7: the spans [process_file] records are exactly the non-empty
    stretches of the file before each line starting with [%], each reaching
    back to the end of the previous such line (to offset 0 for the first):
    the leading text is a span, the text after the last delimiter line is
    never one. *)
Theorem X7_spans_are_gaps (path contents : bytes) (qf : QuoteFile) :
  process_file path (Some contents) = Ok qf ->
  quotes qf = gaps 0 (delim_ranges 0 (split_lines contents)).
Proof. exact (process_file_quotes_gaps path contents qf). Qed.

Lemma X7_spans_are_gaps_witness :
  exists qf, process_file c1_path (Some c5_contents) = Ok qf /\
    quotes qf = gaps 0 (delim_ranges 0 (split_lines c5_contents)) /\
    quotes qf = [mkQuoteIndex 0 20; mkQuoteIndex 22 11].
Proof.
  destruct (process_file c1_path (Some c5_contents)) as [qf| |] eqn:E;
    [| discriminate | discriminate].
  exists qf. split; [reflexivity|]. split.
  - exact (X7_spans_are_gaps _ _ _ E).
  - vm_compute in E. injection E as <-. reflexivity.
Defined.

(** X8: a readable UTF-8 file with no line starting with [%] yields no
    span at all, so the filter of [from_dir] never keeps it, whatever
    categories are allowed. *)
Theorem X8_no_delimiter_no_span (allowed : list QuoteCategory) (path contents : bytes)
  (qf : QuoteFile) :
  process_file path (Some contents) = Ok qf ->
  Forall (fun l => starts_with l SEPARATOR = false) (split_lines contents) ->
  quotes qf = [] /\ eligible allowed qf = false.
Proof.
  intros H Hnone.
  assert (Hq : quotes qf = []).
  { rewrite (process_file_quotes_gaps _ _ _ H), (delim_ranges_none _ 0 Hnone). reflexivity. }
  split; [exact Hq|]. unfold eligible. rewrite Hq. simpl. apply andb_false_r.
Qed.

Lemma X8_no_delimiter_no_span_witness :
  exists qf, process_file (bs "quotes/plain") (Some (bs "No delimiter here." ++ [NL])) = Ok qf /\
    Forall (fun l => starts_with l SEPARATOR = false)
      (split_lines (bs "No delimiter here." ++ [NL])) /\
    quotes qf = [] /\ eligible [Decorous; Offensive] qf = false.
Proof.
  destruct (process_file (bs "quotes/plain") (Some (bs "No delimiter here." ++ [NL])))
    as [qf| |] eqn:E; [| discriminate | discriminate].
  assert (Hn : Forall (fun l => starts_with l SEPARATOR = false)
                 (split_lines (bs "No delimiter here." ++ [NL])))
    by (vm_compute; repeat constructor).
  exists qf. split; [reflexivity|]. split; [exact Hn|].
  exact (X8_no_delimiter_no_span [Decorous; Offensive] _ _ _ E Hn).
Defined.

(** X9: [from_dir] builds a corpus only if every subdirectory, at any
    depth, builds a corpus of its own under its path; so a subdirectory
    with no eligible file makes the whole build fail. When such a
    subdirectory is the first entry read, the build panics (the [unwrap] of
    its own recursive call), whatever the later entries hold. *)
Theorem X9_every_subdir_builds (allowed : list QuoteCategory) (dir : bytes) (d : entry)
  (q : Quotes) :
  (from_dir allowed dir d = Ok q ->
   forall p e, In (p, e) (subdirs dir d) ->
     (exists q', from_dir allowed p e = Ok q') /\ no_eligible_dir allowed p e = false) /\
  (forall top name readable children rest,
     no_eligible_dir allowed (join dir name) (EDir name readable children) = true ->
     from_dir allowed dir (EDir top true (ECons (EDir name readable children) rest)) = Panic).
Proof.
  split.
  2:{ intros top name readable children rest Hn. cbn [from_dir].
      rewrite from_entries_dir, (no_eligible_panics allowed _ _ Hn). reflexivity. }
  intros Hq p e Hin.
  destruct (from_dir_subdirs allowed d dir q Hq p e Hin) as [q' Hq'].
  split; [exists q'; exact Hq'|].
  destruct (no_eligible_dir allowed p e) eqn:Hn; [|reflexivity].
  rewrite (no_eligible_panics allowed e p Hn) in Hq'. discriminate.
Qed.

Lemma X9_every_subdir_builds_witness :
  exists q, from_dir [Decorous] (bs "quotes") nested_dir = Ok q /\
    In (join (bs "quotes") (bs "more"),
        EDir (bs "more") true (ECons (EFile (bs "c") (Some one_quote)) ENil))
      (subdirs (bs "quotes") nested_dir) /\
    (exists q', from_dir [Decorous] (join (bs "quotes") (bs "more"))
                  (EDir (bs "more") true (ECons (EFile (bs "c") (Some one_quote)) ENil)) = Ok q') /\
    no_eligible_dir [Decorous] (join (bs "quotes") (bs "more"))
      (EDir (bs "more") true (ECons (EFile (bs "c") (Some one_quote)) ENil)) = false /\
    from_dir [Decorous] (bs "quotes")
      (EDir (bs "quotes") true
        (ECons (EDir (bs "empty") true ENil) (ECons (EFile (bs "a") (Some one_quote)) ENil)))
      = Panic.
Proof.
  destruct (from_dir [Decorous] (bs "quotes") nested_dir) as [q| |] eqn:E;
    [| discriminate | discriminate].
  assert (Hin : In (join (bs "quotes") (bs "more"),
                    EDir (bs "more") true (ECons (EFile (bs "c") (Some one_quote)) ENil))
                  (subdirs (bs "quotes") nested_dir)) by (left; reflexivity).
  exists q. split; [reflexivity|]. split; [exact Hin|].
  destruct (proj1 (X9_every_subdir_builds _ _ _ _) E _ _ Hin) as [H1 H2].
  split; [exact H1|]. split; [exact H2|].
  apply (proj2 (X9_every_subdir_builds [Decorous] (bs "quotes") nested_dir q)).
  reflexivity.
Defined.

(** X10: [Cli::allowed_categories] allows the offensive category exactly
    when [--categories] is [offensive] or [all], or, without it, when [-a]
    or [-o] is given; it allows the decorous category exactly when
    [--categories] is [decorous] or [all], or, without it, when [-a] is
    given or [-o] is not. The list is never empty and has no duplicate. *)
Theorem X10_allowed_categories (args : Cli.t) :
  (In Offensive (allowed_categories args) <->
     match Cli.categories args with
     | Some c => c <> AllowedCategories.Decorous
     | None => Cli.all args = true \/ Cli.offensive args = true
     end) /\
  (In Decorous (allowed_categories args) <->
     match Cli.categories args with
     | Some c => c <> AllowedCategories.Offensive
     | None => Cli.all args = true \/ Cli.offensive args = false
     end) /\
  allowed_categories args <> [] /\ NoDup (allowed_categories args).
Proof.
  destruct args as [all cats dir host lf off port quiet v].
  unfold allowed_categories; cbn [Cli.categories Cli.all Cli.offensive].
  destruct cats as [[| |]|]; [| | | destruct all, off]; cbn [as_category_vec In];
    (split; [|split; [|split]]);
    try (repeat constructor; cbn [In]; intuition discriminate);
    split; intuition (try discriminate; try congruence).
Qed.

Lemma X10_allowed_categories_witness :
  In Decorous (allowed_categories default_cli) /\
  ~ In Offensive (allowed_categories default_cli) /\
  In Offensive (allowed_categories
    (Cli.mk true None (bs "data") "127.0.0.1" None false 17 false 0)).
Proof.
  split; [|split].
  - exact (proj2 (proj1 (proj2 (X10_allowed_categories default_cli))) (or_intror eq_refl)).
  - intros H. destruct (proj1 (proj1 (X10_allowed_categories default_cli)) H) as [Ha|Ho];
      discriminate.
  - exact (proj2 (proj1 (X10_allowed_categories
      (Cli.mk true None (bs "data") "127.0.0.1" None false 17 false 0))) (or_introl eq_refl)).
Defined.

(** X11: the binary run without [--categories], [-a] or [-o] serves only
    decorous files: every file of its corpus comes from a path that is
    valid UTF-8 and does not end with [-o]. *)
Theorem X11_default_serves_decorous (args : Cli.t) (tree : entry) (q : Quotes) :
  Cli.categories args = None -> Cli.all args = false -> Cli.offensive args = false ->
  main_corpus args tree = Ok q ->
  forall f, In f (files q) ->
    category f = Decorous /\
    exists path contents, process_file path (Some contents) = Ok f /\
      utf8_valid path = true /\ ends_with path OFFENSIVE_SUFFIX = false.
Proof.
  intros Hc Ha Ho Hq f Hf. unfold main_corpus, allowed_categories in Hq.
  rewrite Hc, Ha, Ho in Hq. cbn [as_category_vec] in Hq.
  apply decorous_origin. exact (proj2 (from_dir_origin _ _ _ _ Hq) f Hf).
Qed.

Lemma X11_default_serves_decorous_witness :
  exists q, main_corpus default_cli fair_dir = Ok q /\
    forall f, In f (files q) ->
      category f = Decorous /\
      exists path contents, process_file path (Some contents) = Ok f /\
        utf8_valid path = true /\ ends_with path OFFENSIVE_SUFFIX = false.
Proof.
  destruct (main_corpus default_cli fair_dir) as [q| |] eqn:E; [| discriminate | discriminate].
  exists q. split; [reflexivity|].
  exact (X11_default_serves_decorous default_cli fair_dir q eq_refl eq_refl eq_refl E).
Defined.

(** X12: [serve_dir] of the library serves only decorous files: every
    file of its corpus comes from a path that is valid UTF-8 and does not
    end with [-o]. *)
Theorem X12_serve_dir_serves_decorous (dir : bytes) (tree : entry) (q : Quotes) :
  serve_dir_corpus dir tree = Ok q ->
  forall f, In f (files q) ->
    category f = Decorous /\
    exists path contents, process_file path (Some contents) = Ok f /\
      utf8_valid path = true /\ ends_with path OFFENSIVE_SUFFIX = false.
Proof.
  intros Hq f Hf. apply decorous_origin. exact (proj2 (from_dir_origin _ _ _ _ Hq) f Hf).
Qed.

Lemma X12_serve_dir_serves_decorous_witness :
  exists q, serve_dir_corpus (bs "quotes") nested_dir = Ok q /\
    forall f, In f (files q) ->
      category f = Decorous /\
      exists path contents, process_file path (Some contents) = Ok f /\
        utf8_valid path = true /\ ends_with path OFFENSIVE_SUFFIX = false.
Proof.
  destruct (serve_dir_corpus (bs "quotes") nested_dir) as [q| |] eqn:E;
    [| discriminate | discriminate].
  exists q. split; [reflexivity|].
  exact (X12_serve_dir_serves_decorous _ _ q E).
Defined.

(** X13: [Cli::verbosity]: more [-v] flags never lower the level; [-q]
    has an effect only without [-v]; the level is [ERROR] exactly with
    [-q] and no [-v], [TRACE] exactly from three [-v] on, and never [OFF]. *)
Theorem X13_verbosity_levels :
  (forall a b : Cli.t, Cli.quiet a = Cli.quiet b -> Cli.verbosity a <= Cli.verbosity b ->
     level_rank (verbosity a) <= level_rank (verbosity b)) /\
  (forall a b : Cli.t, Cli.verbosity a = Cli.verbosity b -> 0 < Cli.verbosity a ->
     verbosity a = verbosity b) /\
  (forall a : Cli.t, verbosity a = ERROR <-> Cli.quiet a = true /\ Cli.verbosity a = 0) /\
  (forall a : Cli.t, verbosity a <> OFF /\ (verbosity a = TRACE <-> 3 <= Cli.verbosity a)).
Proof.
  split; [|split; [|split]].
  - intros [? ? ? ? ? ? ? qa va] [? ? ? ? ? ? ? qb vb]; unfold verbosity; cbn [Cli.quiet Cli.verbosity].
    intros -> Hle. destruct va as [|[|[|va]]], vb as [|[|[|vb]]]; try destruct qb; cbn; lia.
  - intros [? ? ? ? ? ? ? qa va] [? ? ? ? ? ? ? qb vb]; unfold verbosity; cbn [Cli.quiet Cli.verbosity].
    intros <- Hpos. destruct va as [|[|[|va]]]; [lia | reflexivity | reflexivity | reflexivity].
  - intros [? ? ? ? ? ? ? qa va]; unfold verbosity; cbn [Cli.quiet Cli.verbosity].
    destruct va as [|[|[|va]]], qa; (split; [intros H | intros [H1 H2]]);
      try discriminate; try lia; auto.
  - intros [? ? ? ? ? ? ? qa va]; unfold verbosity; cbn [Cli.quiet Cli.verbosity].
    destruct va as [|[|[|va]]], qa; (split; [discriminate | split; intros H]);
      try discriminate; try lia; auto.
Qed.

Lemma X13_verbosity_levels_witness :
  level_rank (verbosity default_cli) <= level_rank (verbosity (Cli.mk false None (bs "data")
    "127.0.0.1" None false 17 false 3)) /\
  verbosity (Cli.mk false None (bs "data") "127.0.0.1" None false 17 true 1) =
    verbosity (Cli.mk false None (bs "data") "127.0.0.1" None false 17 false 1).
Proof.
  split.
  - apply (proj1 X13_verbosity_levels); reflexivity || (cbn; lia).
  - apply (proj1 (proj2 X13_verbosity_levels)); reflexivity || (cbn; lia).
Defined.

(** X14: on a corpus built by [from_dir], the quote task of
    [Server::serve] never stops with "Failed to choose quote" nor panics
    while the sampler returns indices in range: it ends only when the
    request channel is closed. Every quote it hands out is the decoded
    span of a corpus file, and while requests keep coming it answers each. *)
Theorem X14_quote_task_never_fails (allowed : list QuoteCategory) (dir : bytes) (d : entry)
  (q : Quotes) (steps : list (nat * nat * bool)) :
  from_dir allowed dir d = Ok q ->
  Forall (fun s => fst (fst s) < sample_range (file_weights q)) steps ->
  (snd (quote_task q steps) = ChannelClosed \/ snd (quote_task q steps) = StillRunning) /\
  Forall (fun quote => exists f qi, In f (files q) /\ In qi (quotes f) /\
                         quote = decoded_span f qi) (fst (quote_task q steps)) /\
  (Forall (fun s => snd s = true) steps ->
     snd (quote_task q steps) = StillRunning /\
     List.length (fst (quote_task q steps)) = List.length steps).
Proof.
  intros Hq. induction steps as [|[[i r] op] rest IH]; intros Hs.
  - cbn. split; [right; reflexivity|]. split; [constructor|]. intros _. auto.
  - inversion Hs as [|? ? Hi Hrest]; subst. cbn [fst] in Hi.
    destruct (random_quote_span _ _ _ _ i r Hq Hi) as (f & qi & Hf & Hqi & Hy & _).
    destruct (IH Hrest) as (IH1 & IH2 & IH3).
    cbn [quote_task]. rewrite Hy.
    destruct op.
    + destruct (quote_task q rest) as [sent e] eqn:Et. cbn [fst snd] in *.
      split; [exact IH1|]. split.
      * constructor; [|exact IH2]. exists f, qi.
        split; [eapply nth_error_In; exact Hf|].
        split; [eapply nth_error_In; exact Hqi | reflexivity].
      * intros Hall. inversion Hall as [|? ? _ Hall']; subst.
        destruct (IH3 Hall') as [He Hl]. split; [exact He | cbn; congruence].
    + cbn. split; [left; reflexivity|]. split; [constructor|].
      intros Hall. inversion Hall as [|? ? Hx _]. discriminate.
Qed.

Lemma X14_quote_task_never_fails_witness :
  exists q, from_dir [Decorous] (bs "quotes") fair_dir = Ok q /\
    Forall (fun s => fst (fst s) < sample_range (file_weights q))
      [(0, 0, true); (1, 5, true); (1, 2, false)] /\
    snd (quote_task q [(0, 0, true); (1, 5, true); (1, 2, false)]) = ChannelClosed /\
    List.length (fst (quote_task q [(0, 0, true); (1, 5, true); (1, 2, false)])) = 2.
Proof.
  destruct (from_dir [Decorous] (bs "quotes") fair_dir) as [q| |] eqn:E;
    [| discriminate | discriminate].
  assert (Hs : Forall (fun s => fst (fst s) < sample_range (file_weights q))
                 [(0, 0, true); (1, 5, true); (1, 2, false)])
    by (vm_compute in E; injection E as <-; repeat constructor; vm_compute; lia).
  exists q. split; [reflexivity|]. split; [exact Hs|].
  destruct (X14_quote_task_never_fails _ _ _ _ _ E Hs) as (Hend & _ & _).
  split.
  - destruct Hend as [H|H]; [exact H|]. vm_compute in E. injection E as <-.
    vm_compute in H. discriminate.
  - vm_compute in E. injection E as <-. reflexivity.
Defined.

(** *** UTF-8 validity of the quotes *)

Lemma utf8_valid_app (x y : bytes) :
  utf8_valid x = true -> utf8_valid y = true -> utf8_valid (x ++ y) = true.
Proof.
  remember (List.length x) as n eqn:Hn. revert x Hn.
  induction n as [n IH] using lt_wf_ind. intros x Hn Hx Hy.
  destruct x as [|b0 r0]; [exact Hy|].
  rewrite <- app_comm_cons, utf8_valid_cons. rewrite utf8_valid_cons in Hx.
  assert (IH' : forall r, List.length r < n -> utf8_valid r = true -> utf8_valid (r ++ y) = true)
    by (intros r Hr Hv; exact (IH _ Hr r eq_refl Hv Hy)).
  simpl in Hn.
  destruct (utf8_width b0) as [|[|[|[|[|w]]]]]; try discriminate.
  - apply IH'; [lia | exact Hx].
  - destruct r0 as [|b1 r1]; [discriminate|]. simpl in Hn |- *.
    apply andb_true_iff in Hx. destruct Hx as [H1 H2].
    rewrite H1, IH' by (assumption || lia). reflexivity.
  - destruct r0 as [|b1 [|b2 r2]]; try discriminate. simpl in Hn |- *.
    apply andb_true_iff in Hx. destruct Hx as [H1 H3]. apply andb_true_iff in H1.
    destruct H1 as [H1 H2]. rewrite H1, H2, IH' by (assumption || lia). reflexivity.
  - destruct r0 as [|b1 [|b2 [|b3 r3]]]; try discriminate. simpl in Hn |- *.
    apply andb_true_iff in Hx. destruct Hx as [H1 H4]. apply andb_true_iff in H1.
    destruct H1 as [H1 H3]. apply andb_true_iff in H1. destruct H1 as [H1 H2].
    rewrite H1, H2, H3, IH' by (assumption || lia). reflexivity.
Qed.

Lemma skipn_length_app (w z : bytes) : skipn (List.length w) (w ++ z) = z.
Proof. induction w as [|b w IH]; [reflexivity | exact IH]. Qed.

Lemma firstn_length_app (w z : bytes) : firstn (List.length w) (w ++ z) = w.
Proof. induction w as [|b w IH]; [reflexivity | simpl; rewrite IH; reflexivity]. Qed.

(** Each span is a block of whole lines, so it is as valid as they are. *)
Lemma gaps_utf8 (L : list bytes) :
  forall W Y, forallb utf8_valid L = true -> utf8_valid Y = true ->
  forall q, In q (gaps (List.length W) (delim_ranges (List.length (W ++ Y)) L)) ->
  utf8_valid (firstn (length q) (skipn (offset q) (W ++ Y ++ List.concat L))) = true.
Proof.
  induction L as [|l L IH]; intros W Y HL HY q Hin; [contradiction|].
  cbn [forallb] in HL. apply andb_true_iff in HL. destruct HL as [Hl HL].
  cbn [delim_ranges List.concat] in Hin |- *.
  destruct (starts_with l SEPARATOR); cbn [app gaps] in Hin.
  - apply in_app_or in Hin. destruct Hin as [Hin|Hin].
    + destruct (0 <? List.length (W ++ Y) - List.length W); [|contradiction].
      destruct Hin as [<-|[]]. cbn [offset length].
      rewrite skipn_length_app, length_app.
      replace (List.length W + List.length Y - List.length W) with (List.length Y) by lia.
      rewrite firstn_length_app. exact HY.
    + specialize (IH (W ++ Y ++ l) [] HL eq_refl q).
      rewrite app_nil_r, !length_app in IH. rewrite length_app in Hin.
      replace (List.length W + (List.length Y + List.length l))
        with (List.length W + List.length Y + List.length l) in IH by lia.
      rewrite <- !app_assoc in IH. exact (IH Hin).
    - specialize (IH W (Y ++ l) HL (utf8_valid_app _ _ HY Hl) q).
      rewrite !length_app in IH. rewrite length_app in Hin.
      replace (List.length W + (List.length Y + List.length l))
        with (List.length W + List.length Y + List.length l) in IH by lia.
      rewrite <- !app_assoc in IH. exact (IH Hin).
Qed.

Lemma rot13_byte_cases (b : byte) :
  (Byte.to_nat b < 128 /\ Byte.to_nat (rot13_byte b) < 128) \/ rot13_byte b = b.
Proof. destruct b; first [right; reflexivity | left; cbn; lia]. Qed.

Lemma in_range_rot13 (lo hi : nat) (b : byte) :
  128 <= lo -> in_range lo hi (rot13_byte b) = in_range lo hi b.
Proof.
  intros Hlo. destruct (rot13_byte_cases b) as [[H1 H2]| ->]; [|reflexivity].
  unfold in_range.
  replace (lo <=? Byte.to_nat (rot13_byte b)) with false by (symmetry; apply Nat.leb_gt; lia).
  replace (lo <=? Byte.to_nat b) with false by (symmetry; apply Nat.leb_gt; lia).
  reflexivity.
Qed.

Lemma second_ok_rot13 (b0 b1 : byte) : second_ok b0 (rot13_byte b1) = second_ok b0 b1.
Proof.
  unfold second_ok, cont_byte.
  repeat (destruct (_ =? _)); apply in_range_rot13; lia.
Qed.

Lemma rot13_utf8 (l : bytes) : utf8_valid (rot13 l) = utf8_valid l.
Proof.
  unfold rot13. remember (List.length l) as n eqn:Hn. revert l Hn.
  induction n as [n IH] using lt_wf_ind. intros l Hn.
  destruct l as [|b0 r0]; [reflexivity|].
  simpl in Hn. cbn [map]. rewrite !(utf8_valid_cons _ (map rot13_byte r0)), utf8_valid_cons.
  assert (IH' : forall r, List.length r < n -> utf8_valid (map rot13_byte r) = utf8_valid r)
    by (intros r Hr; exact (IH _ Hr r eq_refl)).
  destruct (rot13_byte_cases b0) as [[H1 H2]|Hb].
  - assert (Hw : forall c, Byte.to_nat c < 128 -> utf8_width c = 1).
    { intros c Hc. unfold utf8_width, in_range.
      replace (0 <=? Byte.to_nat c) with true by (symmetry; apply Nat.leb_le; lia).
      replace (Byte.to_nat c <=? 127) with true by (symmetry; apply Nat.leb_le; lia).
      reflexivity. }
    rewrite (Hw _ H1), (Hw _ H2). apply IH'. lia.
  - rewrite Hb.
    destruct (utf8_width b0) as [|[|[|[|[|w]]]]]; try reflexivity.
    + apply IH'. lia.
    + destruct r0 as [|b1 r1]; [reflexivity|]. simpl in Hn. cbn [map].
      unfold cont_byte. rewrite in_range_rot13, IH' by lia. reflexivity.
    + destruct r0 as [|b1 [|b2 r2]]; try reflexivity. simpl in Hn. cbn [map].
      unfold cont_byte. rewrite second_ok_rot13, in_range_rot13, IH' by lia. reflexivity.
    + destruct r0 as [|b1 [|b2 [|b3 r3]]]; try reflexivity. simpl in Hn. cbn [map].
      unfold cont_byte. rewrite second_ok_rot13, !in_range_rot13, IH' by lia. reflexivity.
Qed.

(** X15: on a corpus built by [from_dir], every quote [random_quote]
    returns is valid UTF-8, rot13-decoded or not: a span is a block of
    whole lines of a UTF-8 file, and rot13 only swaps ASCII letters.
    The client's [String::from_utf8] thus accepts every quote. *)
Theorem X15_served_quotes_utf8 (allowed : list QuoteCategory) (dir : bytes) (d : entry)
  (q : Quotes) (i r : nat) :
  from_dir allowed dir d = Ok q ->
  i < sample_range (file_weights q) ->
  exists quote, random_quote q i r = Ok quote /\ utf8_valid quote = true.
Proof.
  intros Hq Hi.
  destruct (random_quote_span _ _ _ _ i r Hq Hi) as (f & qi & Hf & Hqi & Hy & _).
  exists (decoded_span f qi). split; [exact Hy|].
  assert (Hin : In f (files q)) by (eapply nth_error_In; exact Hf).
  destruct (proj2 (from_dir_origin _ _ _ _ Hq) f Hin) as [(p & c & Hp) _].
  destruct (process_file_spans_in_file _ _ _ Hp) as [Hh _].
  pose proof (process_file_quotes_gaps _ _ _ Hp) as Hg.
  pose proof (process_file_ok_valid _ _ _ Hp) as Hv.
  assert (Hqin : In qi (quotes f)) by (eapply nth_error_In; exact Hqi).
  rewrite Hg in Hqin.
  pose proof (gaps_utf8 (split_lines c) [] [] ltac:(rewrite split_lines_valid; exact Hv)
                eq_refl qi Hqin) as Hraw.
  cbn [app] in Hraw. rewrite split_lines_concat in Hraw.
  unfold decoded_span. rewrite Hh.
  destruct (encoding f); [exact Hraw | rewrite rot13_utf8; exact Hraw].
Qed.

Lemma X15_served_quotes_utf8_witness :
  exists q, from_dir [Decorous] (bs "quotes") fair_dir = Ok q /\
    1 < sample_range (file_weights q) /\
    exists quote, random_quote q 1 2 = Ok quote /\ utf8_valid quote = true.
Proof.
  destruct (from_dir [Decorous] (bs "quotes") fair_dir) as [q| |] eqn:E;
    [| discriminate | discriminate].
  assert (H1 : 1 < sample_range (file_weights q))
    by (vm_compute in E; injection E as <-; vm_compute; lia).
  exists q. split; [reflexivity|]. split; [exact H1|].
  exact (X15_served_quotes_utf8 _ _ _ q 1 2 E H1).
Defined.
